(** * Porcupine: the run-command dialog and the utility helpers

    A shallow embedding of [porcupine/utils.py] ([backup_open],
    [run_in_thread]) and of [porcupine/plugins/run/dialog.py]
    ([_FormattingEntryAndLabels], [_CommandAsker], [ask_command]),
    followed by the properties the specification states about them. *)

From Stdlib Require Import Ascii String ZArith Lia.
From stdpp Require Import gmap strings list fin_maps.

Local Open Scope string_scope.

(** ** Python values shared by both source files *)

Module Py.

(** The part of the built-in exception hierarchy the two files mention or can
    meet.  [BaseException] is the root; [KeyboardInterrupt], [SystemExit] and
    [GeneratorExit] derive from it directly and are therefore not caught by
    [except Exception]. *)
Inductive exc_class : Type :=
  | BaseException | Exception
  | KeyboardInterrupt | SystemExit | GeneratorExit
  | AssertionError | AttributeError | TypeError
  | LookupError | IndexError | KeyError
  | ValueError | UnicodeError
  | OSError | FileNotFoundError | FileExistsError | PermissionError
  | TclError.

#[export] Instance exc_class_eq_dec : EqDecision exc_class.
Proof. solve_decision. Defined.

(** The direct base class, [None] for the root. *)
Definition base (c : exc_class) : option exc_class :=
  match c with
  | BaseException => None
  | Exception | KeyboardInterrupt | SystemExit | GeneratorExit => Some BaseException
  | AssertionError | AttributeError | TypeError
  | LookupError | ValueError | OSError | TclError => Some Exception
  | IndexError | KeyError => Some LookupError
  | UnicodeError => Some ValueError
  | FileNotFoundError | FileExistsError | PermissionError => Some OSError
  end.

(** [issubclass c d], walking up the chain of bases; the hierarchy above is
    at most four classes deep. *)
Fixpoint issubclass_fuel (fuel : nat) (c d : exc_class) : bool :=
  if decide (c = d) then true
  else match fuel with
       | O => false
       | S fuel' =>
           match base c with
           | Some b => issubclass_fuel fuel' b d
           | None => false
           end
       end.

Definition issubclass (c d : exc_class) : bool := issubclass_fuel 4 c d.

(** A raised exception: its class, its message and the text
    [traceback.format_exc()] gives for it while it is being handled. *)
Record exn : Type := Exn {
  exn_class : exc_class;
  exn_msg : string;
  exn_traceback : string
}.

Definition isinstance (e : exn) (c : exc_class) : bool :=
  issubclass (exn_class e) c.

(** [except (c1, c2, ...)]: does the clause catch [e]? *)
Definition catches (classes : list exc_class) (e : exn) : bool :=
  existsb (isinstance e) classes.

(** The outcome of evaluating an expression or a call: a value, or a raised
    exception. *)
Inductive result (A : Type) : Type :=
  | Ok (a : A)
  | Raise (e : exn).
Arguments Ok {A} a.
Arguments Raise {A} e.

Definition format_exc (e : exn) : string := exn_traceback e.

(** Code that works on a state of type [S] and can raise: the state it
    leaves and how it ended. *)
Definition M (S A : Type) : Type := S -> S * result A.

#[export] Instance M_ret (S : Type) : MRet (M S) :=
  fun A a s => (s, Ok a).

#[export] Instance M_bind (S : Type) : MBind (M S) :=
  fun A B f m s =>
    match m s with
    | (s', Ok a) => f a s'
    | (s', Raise e) => (s', Raise e)
    end.

Definition raise {S A : Type} (e : exn) : M S A := fun s => (s, Raise e).

(** A statement that changes the state and cannot raise. *)
Definition modify {S : Type} (f : S -> S) : M S unit := fun s => (f s, Ok tt).

(** A callback Tk calls through [CallWrapper] (a variable trace, a binding):
    an exception it raises is reported and goes no further. *)
Definition call_wrapper {S : Type} (callback : M S unit) : M S unit :=
  fun s => (fst (callback s), Ok tt).

(** [l[i]] with Python's negative indices. *)
Definition list_getitem {A : Type} (l : list A) (i : Z) : result A :=
  let n := Z.of_nat (length l) in
  let j := if (i <? 0)%Z then (i + n)%Z else i in
  if (j <? 0)%Z then Raise (Exn IndexError "list index out of range" "")
  else match l !! Z.to_nat j with
       | Some x => Ok x
       | None => Raise (Exn IndexError "list index out of range" "")
       end.

(** [l.index(x)]. *)
Fixpoint list_index `{EqDecision A} (x : A) (l : list A) : option nat :=
  match l with
  | [] => None
  | y :: l' => if decide (y = x) then Some O else S <$> list_index x l'
  end.

End Py.

Import Py.

(** ** Python strings *)

Module Str.

(** Strings are sequences of code points below 256. *)

(** [s.rfind(c)]: the highest index of [c] in [s], [-1] when absent. *)
Fixpoint rfind_from (c : ascii) (s : string) (i last : Z) : Z :=
  match s with
  | EmptyString => last
  | String a s' => rfind_from c s' (i + 1) (if Ascii.eqb a c then i else last)
  end.

Definition rfind (c : ascii) (s : string) : Z := rfind_from c s 0 (-1).

(** The slices [s[:n]] and [s[n:]]. *)
Fixpoint str_take (n : nat) (s : string) : string :=
  match n, s with
  | S n', String a s' => String a (str_take n' s')
  | _, _ => EmptyString
  end.

Fixpoint str_drop (n : nat) (s : string) : string :=
  match n, s with
  | S n', String _ s' => str_drop n' s'
  | _, _ => s
  end.

(** [s.startswith(prefix)]. *)
Definition startswith (s prefix : string) : bool := String.prefix prefix s.

(** [c.isspace()]: the characters [str.strip()] removes. *)
Definition isspace (c : ascii) : bool :=
  let n := nat_of_ascii c in
  (((9 <=? n) && (n <=? 13)) || ((28 <=? n) && (n <=? 32))
   || (n =? 133) || (n =? 160))%nat.

(** [c.isprintable()] for one character: not a control character, not a
    separator other than the space, not a format character. *)
Definition isprintable_char (c : ascii) : bool :=
  let n := nat_of_ascii c in
  (((32 <=? n) && (n <=? 126)) || ((161 <=? n) && negb (n =? 173)))%nat.

Fixpoint isprintable (s : string) : bool :=
  match s with
  | EmptyString => true
  | String c s' => isprintable_char c && isprintable s'
  end.

Fixpoint lstrip (s : string) : string :=
  match s with
  | EmptyString => EmptyString
  | String c s' => if isspace c then lstrip s' else s
  end.

(** [rstrip] keeps a character when it is not a space or when something is
    kept after it. *)
Fixpoint rstrip (s : string) : string :=
  match s with
  | EmptyString => EmptyString
  | String c s' =>
      match rstrip s' with
      | EmptyString => if isspace c then EmptyString else String c EmptyString
      | t => String c t
      end
  end.

Definition strip (s : string) : string := rstrip (lstrip s).

(** [bool(s)]. *)
Definition truthy (s : string) : bool :=
  match s with EmptyString => false | _ => true end.

End Str.

(** ** [os], [os.path] and [shutil] on a file system of regular files *)

Module Os.
Import Str.

(** Paths are strings, a file is its bytes. *)
Abbreviation FS := (gmap string (list Byte.byte)).

Definition exists_ (fs : FS) (path : string) : bool :=
  bool_decide (is_Some (fs !! path)).

(** The [while filenameIndex < dotIndex] loop of [genericpath._splitext]:
    is there a character other than the dot among the [n] characters that
    start at index [i]? *)
Fixpoint has_non_dot (p : string) (i n : nat) : bool :=
  match n with
  | O => false
  | S n' =>
      match String.get i p with
      | Some a => if Ascii.eqb a "." then has_non_dot p (S i) n' else true
      | None => true
      end
  end.

(** [os.path.splitext] (the [posixpath] one: [sep = '/'], no [altsep],
    [extsep = '.']). *)
Definition splitext (p : string) : string * string :=
  let sepIndex := rfind "/" p in
  let dotIndex := rfind "." p in
  if (sepIndex <? dotIndex)%Z
     && has_non_dot p (Z.to_nat (sepIndex + 1)) (Z.to_nat (dotIndex - (sepIndex + 1)))
  then (str_take (Z.to_nat dotIndex) p, str_drop (Z.to_nat dotIndex) p)
  else (p, "").

(** [shutil.copy(src, dst)] for a regular file [src] and a [dst] that is not
    a directory. *)
Definition copy (src dst : string) (fs : FS) : FS * result unit :=
  match fs !! src with
  | Some c => (<[dst := c]> fs, Ok tt)
  | None => (fs, Raise (Exn FileNotFoundError src ""))
  end.

(** [shutil.move(src, dst)] onto a [dst] that is not a directory: a rename,
    which replaces [dst]. *)
Definition move (src dst : string) (fs : FS) : FS * result unit :=
  match fs !! src with
  | Some c => (<[dst := c]> (delete src fs), Ok tt)
  | None => (fs, Raise (Exn FileNotFoundError src ""))
  end.

(** [os.remove(path)]. *)
Definition remove (path : string) (fs : FS) : FS * result unit :=
  match fs !! path with
  | Some _ => (delete path fs, Ok tt)
  | None => (fs, Raise (Exn FileNotFoundError path ""))
  end.

(** The modes of the built-in [open] that matter for what happens to the
    file when it is opened. *)
Inductive open_mode : Type :=
  | ModeRead        (* 'r', 'r+', 'rb', ... : the file must be there *)
  | ModeWrite       (* 'w', 'w+', 'wb', ... : created or truncated *)
  | ModeAppend      (* 'a', ... : created when missing *)
  | ModeExclusive   (* 'x', ... : must be missing, created *)
  | ModeInvalid.    (* anything [open] refuses with ValueError *)

(** [open(path, mode)].  [fault] is what the operating system refuses the
    call with, if it does (permissions, a full disk, ...); nothing has been
    done to the file then. *)
Definition open_ (fault : option exn) (mode : open_mode) (path : string)
    (fs : FS) : FS * result unit :=
  match fault with
  | Some e => (fs, Raise e)
  | None =>
      match mode with
      | ModeInvalid => (fs, Raise (Exn ValueError "invalid mode" ""))
      | ModeRead =>
          if exists_ fs path then (fs, Ok tt)
          else (fs, Raise (Exn FileNotFoundError path ""))
      | ModeWrite => (<[path := []]> fs, Ok tt)
      | ModeAppend =>
          if exists_ fs path then (fs, Ok tt) else (<[path := []]> fs, Ok tt)
      | ModeExclusive =>
          if exists_ fs path then (fs, Raise (Exn FileExistsError path ""))
          else (<[path := []]> fs, Ok tt)
      end
  end.

End Os.

(** ** [porcupine/utils.py] *)

Module Utils.
Import Os.

(** The loop [while os.path.exists(name + ext): name += '-backup'] of
    [backup_open], bounded by [fuel] iterations; [None] when they run out. *)
Fixpoint find_backup_name (fuel : nat) (fs : FS) (name ext : string) : option string :=
  match fuel with
  | O => None
  | S fuel' =>
      if exists_ fs (name +:+ ext)
      then find_backup_name fuel' fs (name +:+ "-backup") ext
      else Some name
  end.

(** [backuppath] as [backup_open] computes it.  The loop is given one more
    iteration than the file system has files. *)
Definition backuppath (fs : FS) (path : string) : option string :=
  let '(name, ext) := splitext path in
  match find_backup_name (S (size fs)) fs name ext with
  | Some name' => Some (name' +:+ ext)
  | None => None
  end.

(** The name the loop holds after [k] iterations. *)
Fixpoint nth_name (k : nat) (name : string) : string :=
  match k with
  | O => name
  | S k' => nth_name k' (name +:+ "-backup")
  end.

(** What runs between the [try:] and the end of the [with] block:
    [open(path, ...)], whose result is yielded, and then the body of the
    [with] statement, which can change the file system and can raise. *)
Definition protected_block (fault : option exn) (mode : open_mode) (path : string)
    (body : FS -> FS * result unit) (fs : FS) : FS * result unit :=
  match open_ fault mode path fs with
  | (fs1, Ok _) => body fs1
  | (fs1, Raise e) => (fs1, Raise e)
  end.

(** [with backup_open(path, mode): body], from the file system before the
    statement to the one after it and to how the statement ends.  [None]
    only if the search for a backup name ran out of iterations. *)
Definition backup_open (fault : option exn) (mode : open_mode) (path : string)
    (body : FS -> FS * result unit) (fs : FS) : option (FS * result unit) :=
  if exists_ fs path then
    match backuppath fs path with
    | None => None
    | Some backuppath =>
        match copy path backuppath fs with
        | (fs1, Raise e) => Some (fs1, Raise e)
        | (fs1, Ok _) =>
            match protected_block fault mode path body fs1 with
            | (fs2, Raise e) =>
                if isinstance e Exception then
                  match move backuppath path fs2 with
                  | (fs3, Ok _) => Some (fs3, Raise e)
                  | (fs3, Raise e') => Some (fs3, Raise e')
                  end
                else Some (fs2, Raise e)
            | (fs2, Ok _) =>
                match remove backuppath fs2 with
                | (fs3, Ok _) => Some (fs3, Ok tt)
                | (fs3, Raise e') => Some (fs3, Raise e')
                end
            end
        end
    end
  else Some (protected_block fault mode path body fs).

(** *** [run_in_thread]

    The worker thread and Tk's main loop are the two actors; a state of the
    pair records what either can observe of the other. *)

Section RunInThread.

(** The type of what [blocking_function] returns. *)
Context {V : Type}.

(** The elements [result[:]] is given, which [done_callback] receives as its
    arguments. *)
Inductive pyarg : Type :=
  | PyBool (b : bool)
  | PyStr (s : string)
  | PyVal (v : V).

Inductive thread_state : Type :=
  | Running     (* started, [thread_target] has not finished *)
  | Finishing   (* [thread_target] has returned or died, the thread is still alive *)
  | Exited.     (* [thread.is_alive()] is False *)

(** How a pending call of [check] was scheduled. *)
Inductive scheduled : Type :=
  | AfterIdle              (* root.after_idle(check) *)
  | After (ms : nat).      (* root.after(100, check) *)

Record rt_state : Type := RtState {
  thread : thread_state;
  result_list : list pyarg;            (* result = []  # [success, result] *)
  pending : list scheduled;            (* the calls of [check] Tk still owes *)
  done_calls : list (list pyarg);      (* the arguments of each call of [done_callback] *)
  thread_error : option exn            (* what the worker thread died of *)
}.

Definition is_alive (s : rt_state) : bool :=
  match thread s with Exited => false | _ => true end.

(** [thread_target], run to its end on the worker thread. *)
Definition thread_target (blocking_function : result V) (s : rt_state) : rt_state :=
  match blocking_function with
  | Ok value =>
      RtState Finishing [PyBool true; PyVal value] (pending s) (done_calls s) None
  | Raise e =>
      if isinstance e Exception
      then RtState Finishing [PyBool false; PyStr (format_exc e)] (pending s) (done_calls s)
             None
      else RtState Finishing (result_list s) (pending s) (done_calls s) (Some e)
  end.

(** [check], called by the main loop. *)
Definition check (s : rt_state) : rt_state :=
  if is_alive s
  then RtState (thread s) (result_list s) (pending s ++ [After 100]) (done_calls s)
         (thread_error s)
  else RtState (thread s) (result_list s) (pending s) (done_calls s ++ [result_list s])
         (thread_error s).

(** The state [run_in_thread] returns in: the thread started, [check]
    scheduled once. *)
Definition run_in_thread : rt_state :=
  RtState Running [] [AfterIdle] [] None.

(** What can happen next. *)
Inductive rt_event : Type :=
  | WorkerRuns      (* the worker runs [thread_target] to its end *)
  | WorkerExits     (* the worker thread ends *)
  | MainLoopFires.  (* the main loop takes the oldest pending call of [check] *)

Definition rt_step (blocking_function : result V) (ev : rt_event) (s : rt_state)
    : option rt_state :=
  match ev, thread s with
  | WorkerRuns, Running => Some (thread_target blocking_function s)
  | WorkerExits, Finishing =>
      Some (RtState Exited (result_list s) (pending s) (done_calls s) (thread_error s))
  | MainLoopFires, _ =>
      match pending s with
      | _ :: rest =>
          Some (check (RtState (thread s) (result_list s) rest (done_calls s) (thread_error s)))
      | [] => None
      end
  | _, _ => None
  end.

(** A schedule, event after event; an event that cannot happen in the state
    it is tried in is skipped. *)
Fixpoint rt_run (blocking_function : result V) (evs : list rt_event) (s : rt_state)
    : rt_state :=
  match evs with
  | [] => s
  | ev :: evs' =>
      match rt_step blocking_function ev s with
      | Some s' => rt_run blocking_function evs' s'
      | None => rt_run blocking_function evs' s
      end
  end.

(** Two calls of [run_in_thread], one after the other: each has its own
    thread, [result] and [check]; [callback_order] lists whose
    [done_callback] was called, in the order of the calls. *)
Inductive call_id : Type := FirstCall | SecondCall.

Record rt_pair : Type := RtPair {
  first_call : rt_state;
  second_call : rt_state;
  callback_order : list call_id
}.

Definition run_in_thread_twice : rt_pair := RtPair run_in_thread run_in_thread [].

(** Did the step from [s] to [s'] call [done_callback]? *)
Definition called_back (s s' : rt_state) : bool :=
  negb (length (done_calls s') =? length (done_calls s))%nat.

Definition rt_pair_step (blocking_function1 blocking_function2 : result V)
    (ev : call_id * rt_event) (p : rt_pair) : rt_pair :=
  match ev with
  | (FirstCall, ev) =>
      match rt_step blocking_function1 ev (first_call p) with
      | Some s' =>
          RtPair s' (second_call p)
            (callback_order p ++ (if called_back (first_call p) s' then [FirstCall] else []))
      | None => p
      end
  | (SecondCall, ev) =>
      match rt_step blocking_function2 ev (second_call p) with
      | Some s' =>
          RtPair (first_call p) s'
            (callback_order p ++ (if called_back (second_call p) s' then [SecondCall] else []))
      | None => p
      end
  end.

Definition rt_pair_run (blocking_function1 blocking_function2 : result V)
    (evs : list (call_id * rt_event)) (p : rt_pair) : rt_pair :=
  fold_left (fun p ev => rt_pair_step blocking_function1 blocking_function2 ev p) evs p.

(** What [result] holds once [thread_target] is over, and what the thread
    died of. *)
Definition expected_result (blocking_function : result V) : list pyarg :=
  match blocking_function with
  | Ok value => [PyBool true; PyVal value]
  | Raise e => if isinstance e Exception then [PyBool false; PyStr (format_exc e)] else []
  end.

Definition expected_error (blocking_function : result V) : option exn :=
  match blocking_function with
  | Ok _ => None
  | Raise e => if isinstance e Exception then None else Some e
  end.

(** The invariant of the two actors: [result] is empty until
    [thread_target] is over and holds its outcome from then on; either no
    call of [done_callback] has been made and exactly one call of [check] is
    pending, or the thread has exited, [check] has called [done_callback]
    with [result] and nothing is pending. *)
Definition rt_inv (blocking_function : result V) (s : rt_state) : Prop :=
  match thread s with
  | Running => result_list s = [] /\ thread_error s = None
  | _ => result_list s = expected_result blocking_function
         /\ thread_error s = expected_error blocking_function
  end
  /\ ((done_calls s = [] /\ exists p, pending s = [p])
      \/ (done_calls s = [result_list s] /\ pending s = [] /\ thread s = Exited)).

End RunInThread.

Arguments pyarg : clear implicits.
Arguments rt_state : clear implicits.
Arguments rt_pair : clear implicits.

End Utils.

(** ** The widgets of Tk and ttk the dialog uses *)

Module Tk.
Import Str.

Inductive widget_state : Type := StateNormal | StateDisabled.

#[export] Instance widget_state_eq_dec : EqDecision widget_state.
Proof. solve_decision. Defined.

(** A [tkinter.Text] used for display: the text between index [1.0] and the
    final newline, the [state] option and the [font] option. *)
Record text_widget : Type := TextWidget {
  text_content : string;
  text_state : widget_state;
  text_font : string
}.

(** [text.config(state=..., font=...)]. *)
Definition text_config (state : widget_state) (font : string) (t : text_widget)
    : text_widget :=
  TextWidget (text_content t) state font.

(** [text.config(state=...)]. *)
Definition text_config_state (state : widget_state) (t : text_widget) : text_widget :=
  TextWidget (text_content t) state (text_font t).

(** [text.delete("1.0", "end")]; a disabled text widget ignores it. *)
Definition text_delete_all (t : text_widget) : text_widget :=
  match text_state t with
  | StateNormal => TextWidget "" StateNormal (text_font t)
  | StateDisabled => t
  end.

(** [text.insert("1.0", s)]; a disabled text widget ignores it. *)
Definition text_insert_start (s : string) (t : text_widget) : text_widget :=
  match text_state t with
  | StateNormal => TextWidget (s +:+ text_content t) StateNormal (text_font t)
  | StateDisabled => t
  end.

(** A [ttk.Entry]: its text (which is also the value of the [StringVar] given
    as [textvariable]), the insertion cursor and the selection
    [(sel.first, sel.last)], [None] when [selection_present()] is false. *)
Record entry_widget : Type := EntryWidget {
  entry_text : string;
  entry_insert : nat;
  entry_selection : option (nat * nat)
}.

(** [entry.get()]. *)
Definition entry_get (e : entry_widget) : string := entry_text e.

(** [entry.index("end")]. *)
Definition entry_index_end (e : entry_widget) : nat := String.length (entry_text e).

(** [entry.icursor(i)]. *)
Definition icursor (i : nat) (e : entry_widget) : entry_widget :=
  EntryWidget (entry_text e) (Nat.min i (entry_index_end e)) (entry_selection e).

(** [entry.selection_range(first, last)] on indices already resolved; an
    empty range clears the selection. *)
Definition selection_range (first last : nat) (e : entry_widget) : entry_widget :=
  let first := Nat.min first (entry_index_end e) in
  let last := Nat.min last (entry_index_end e) in
  EntryWidget (entry_text e) (entry_insert e)
    (if (first <? last)%nat then Some (first, last) else None).

(** The entry after its [textvariable] was set to [s]: the indices are
    brought back into the new text, a selection that became empty is
    dropped. *)
Definition entry_set_text (s : string) (e : entry_widget) : entry_widget :=
  let n := String.length s in
  let sel :=
    match entry_selection e with
    | Some (first, last) =>
        if (Nat.min first n <? Nat.min last n)%nat
        then Some (Nat.min first n, Nat.min last n) else None
    | None => None
    end in
  EntryWidget s (Nat.min (entry_insert e) n) sel.

(** The selected text, empty without a selection. *)
Definition selected_text (e : entry_widget) : string :=
  match entry_selection e with
  | Some (first, last) => str_take (last - first) (str_drop first (entry_text e))
  | None => ""
  end.

End Tk.

(** ** [porcupine/plugins/run/common.py] and the other modules the dialog imports *)

Module Common.

(** Modelled from the spec: the class [Command] of [common.py], which is not
    among the source files.  "A Command value aggregates a command-format
    string, a working-directory-format string, an external-terminal flag, and
    a substitution mapping"; the field names are those [get_command] passes. *)
Record Command : Type := MkCommand {
  command_format : string;
  cwd_format : string;
  external_terminal : bool;
  substitutions : gmap string string
}.

(** What the dialog takes from modules that are not among the source files:
    the two formatting methods of [Command] and [pathlib.Path] as far as the
    dialog uses it, [common.Context], [history] and [utils.get_binding]. *)
Class RunEnv : Type := {
  Path : Type;
  path_str : Path -> string;                       (* str(path) *)
  is_dir : Path -> bool;                           (* path.is_dir() *)
  is_absolute : Path -> bool;                      (* path.is_absolute() *)
  format_command : Command -> result string;       (* command.format_command() *)
  format_cwd : Command -> result Path;             (* command.format_cwd() *)
  Context : Type;
  get_substitutions : Context -> gmap string string;
  key_id : Context -> Z;
  get_command_to_repeat : Context -> option Command;
  get_commands_to_suggest : Context -> list Command;
  get_binding : string -> string;                  (* utils.get_binding *)
  create_passive_text_widget : Tk.text_widget      (* textutils.create_passive_text_widget(...) *)
}.

(** *** The formatting the specification describes *)

Definition is_digit (c : ascii) : bool :=
  let n := nat_of_ascii c in ((48 <=? n) && (n <=? 57))%nat.

Fixpoint all_digits (s : string) : bool :=
  match s with
  | EmptyString => true
  | String c s' => is_digit c && all_digits s'
  end.

(** Modelled from the spec: the value a placeholder stands for.  "A named
    placeholder (e.g. folder path) replaced into a command template at format
    time": the name is looked up in the substitution mapping.  A name that is
    not in the mapping is a [KeyError]; an empty or numeric placeholder asks
    for a positional argument, of which there is none, an [IndexError]. *)
Definition lookup_field (subs : gmap string string) (name : string) : result string :=
  if all_digits name
  then Raise (Exn IndexError "Replacement index out of range for positional args tuple" "")
  else match subs !! name with
       | Some v => Ok v
       | None => Raise (Exn KeyError name "")
       end.

(** Modelled from the spec: [str.format] with the substitutions as keyword
    arguments, which [common.py] (not among the source files) formats both
    fields with.  The template is read from left to right; [field] is
    [Some name] while the characters of a placeholder are being read.
    Doubled braces stand for one brace, a brace that opens or closes nothing
    is a [ValueError].  Conversions and format specifications are not
    modelled: what stands between the braces is the name. *)
Fixpoint str_format (subs : gmap string string) (field : option string)
    (template : string) : result string :=
  match template with
  | EmptyString =>
      match field with
      | None => Ok ""
      | Some _ => Raise (Exn ValueError "expected '}' before end of string" "")
      end
  | String c rest =>
      match field with
      | Some name =>
          if Ascii.eqb c "}" then
            match lookup_field subs name with
            | Raise e => Raise e
            | Ok v =>
                match str_format subs None rest with
                | Ok t => Ok (v +:+ t)
                | Raise e => Raise e
                end
            end
          else if Ascii.eqb c "{" then
            Raise (Exn ValueError "unexpected '{' in field name" "")
          else str_format subs (Some (name +:+ String c "")) rest
      | None =>
          if Ascii.eqb c "{" then
            match rest with
            | String c' rest' =>
                if Ascii.eqb c' "{" then
                  match str_format subs None rest' with
                  | Ok t => Ok (String "{" t)
                  | Raise e => Raise e
                  end
                else str_format subs (Some "") rest
            | EmptyString => str_format subs (Some "") rest
            end
          else if Ascii.eqb c "}" then
            match rest with
            | String c' rest' =>
                if Ascii.eqb c' "}" then
                  match str_format subs None rest' with
                  | Ok t => Ok (String "}" t)
                  | Raise e => Raise e
                  end
                else Raise (Exn ValueError "Single '}' encountered in format string" "")
            | EmptyString =>
                Raise (Exn ValueError "Single '}' encountered in format string" "")
            end
          else
            match str_format subs None rest with
            | Ok t => Ok (String c t)
            | Raise e => Raise e
            end
      end
  end.

(** Modelled from the spec: [Command.format_command] of [common.py].
    "Formatting it produces the literal strings shown to the user or
    ultimately executed." *)
Definition spec_format_command (c : Command) : result string :=
  str_format (substitutions c) None (command_format c).

(** Modelled from the spec: [Command.format_cwd] of [common.py], with a path
    written as its string. *)
Definition spec_format_cwd (c : Command) : result string :=
  str_format (substitutions c) None (cwd_format c).

(** The modules the dialog imports, with the formatting of the
    specification, POSIX paths written as strings, [dirs] the directories
    that exist, a context that is its substitutions, no history, and key
    bindings shown under their own names. *)
Definition spec_env (dirs : gset string) : RunEnv := {|
  Path := string;
  path_str := fun p => p;
  is_dir := fun p => bool_decide (p ∈ dirs);
  is_absolute := fun p => Str.startswith p "/";
  format_command := spec_format_command;
  format_cwd := spec_format_cwd;
  Context := gmap string string;
  get_substitutions := fun ctx => ctx;
  key_id := fun _ => 0%Z;
  get_command_to_repeat := fun _ => None;
  get_commands_to_suggest := fun _ => [];
  get_binding := fun s => s;
  create_passive_text_widget := Tk.TextWidget "" Tk.StateDisabled "TkDefaultFont"
|}.

End Common.

(** ** [porcupine/plugins/run/dialog.py] *)

Module Dialog.
Import Str Tk Common.

(** An object of the class [_FormattingEntryAndLabels]: the entry, whose
    [textvariable] is [format_var], and the display under it.  The two
    callbacks the constructor is given are arguments of [validate] below. *)
Record FormattingEntryAndLabels : Type := MkFormattingEntryAndLabels {
  entry : entry_widget;
  _command_display : text_widget
}.

(** [self.format_var.get()]. *)
Definition format_var_get (f : FormattingEntryAndLabels) : string :=
  entry_text (entry f).

(** An object of the class [_CommandAsker]. *)
Record CommandAsker : Type := MkCommandAsker {
  window : bool;                           (* the Toplevel has not been destroyed *)
  _substitutions : gmap string string;
  command : FormattingEntryAndLabels;
  cwd : FormattingEntryAndLabels;
  terminal_var : bool;
  _repeat_bindings : list string;
  _repeat_var : string;
  run_button : widget_state;
  run_clicked : bool;
  _suggestions : list Command
}.

(** The two [_FormattingEntryAndLabels] of a dialog. *)
Inductive field : Type := CommandField | CwdField.

Definition get_field (self : field) (a : CommandAsker) : FormattingEntryAndLabels :=
  match self with
  | CommandField => command a
  | CwdField => cwd a
  end.

Definition set_field (self : field) (f : FormattingEntryAndLabels) (a : CommandAsker)
    : CommandAsker :=
  match self with
  | CommandField =>
      MkCommandAsker (window a) (_substitutions a) f (cwd a) (terminal_var a)
        (_repeat_bindings a) (_repeat_var a) (run_button a) (run_clicked a) (_suggestions a)
  | CwdField =>
      MkCommandAsker (window a) (_substitutions a) (command a) f (terminal_var a)
        (_repeat_bindings a) (_repeat_var a) (run_button a) (run_clicked a) (_suggestions a)
  end.

Definition set_display (self : field) (d : text_widget) (a : CommandAsker) : CommandAsker :=
  set_field self (MkFormattingEntryAndLabels (entry (get_field self a)) d) a.

Definition set_entry (self : field) (e : entry_widget) (a : CommandAsker) : CommandAsker :=
  set_field self (MkFormattingEntryAndLabels e (_command_display (get_field self a))) a.

Definition set_terminal_var (b : bool) (a : CommandAsker) : CommandAsker :=
  MkCommandAsker (window a) (_substitutions a) (command a) (cwd a) b
    (_repeat_bindings a) (_repeat_var a) (run_button a) (run_clicked a) (_suggestions a).

Definition set_repeat_var (s : string) (a : CommandAsker) : CommandAsker :=
  MkCommandAsker (window a) (_substitutions a) (command a) (cwd a) (terminal_var a)
    (_repeat_bindings a) s (run_button a) (run_clicked a) (_suggestions a).

Definition set_run_button (st : widget_state) (a : CommandAsker) : CommandAsker :=
  MkCommandAsker (window a) (_substitutions a) (command a) (cwd a) (terminal_var a)
    (_repeat_bindings a) (_repeat_var a) st (run_clicked a) (_suggestions a).

Definition set_run_clicked (b : bool) (a : CommandAsker) : CommandAsker :=
  MkCommandAsker (window a) (_substitutions a) (command a) (cwd a) (terminal_var a)
    (_repeat_bindings a) (_repeat_var a) (run_button a) b (_suggestions a).

Definition set_suggestions (l : list Command) (a : CommandAsker) : CommandAsker :=
  MkCommandAsker (window a) (_substitutions a) (command a) (cwd a) (terminal_var a)
    (_repeat_bindings a) (_repeat_var a) (run_button a) (run_clicked a) l.

(** [self.window.destroy()]. *)
Definition window_destroy (a : CommandAsker) : CommandAsker :=
  MkCommandAsker false (_substitutions a) (command a) (cwd a) (terminal_var a)
    (_repeat_bindings a) (_repeat_var a) (run_button a) (run_clicked a) (_suggestions a).

Definition other (self : field) : field :=
  match self with
  | CommandField => CwdField
  | CwdField => CommandField
  end.

(** What a display shows, and its [state]. *)
Definition displayed (self : field) (a : CommandAsker) : string :=
  text_content (_command_display (get_field self a)).

Definition display_state (self : field) (a : CommandAsker) : widget_state :=
  text_state (_command_display (get_field self a)).

(** The attributes [validate] and [update_run_button] never assign. *)
Definition same_inputs (a a' : CommandAsker) : Prop :=
  window a' = window a /\ _substitutions a' = _substitutions a
  /\ entry (command a') = entry (command a) /\ entry (cwd a') = entry (cwd a)
  /\ terminal_var a' = terminal_var a /\ _repeat_bindings a' = _repeat_bindings a
  /\ _repeat_var a' = _repeat_var a /\ run_clicked a' = run_clicked a
  /\ _suggestions a' = _suggestions a.

(** A method keeps a property of the dialog when the property holds of the
    dialog the method leaves, however it ends, if it held before. *)
Definition keeps {A : Type} (P : CommandAsker -> Prop) (m : M CommandAsker A) : Prop :=
  forall a, P a -> P (fst (m a)).

(** A property that depends on no more than the substitutions, the repeat
    bindings, the chosen repeat key and the state of the Run button. *)
Definition stable (P : CommandAsker -> Prop) : Prop :=
  forall a a',
    _substitutions a' = _substitutions a -> _repeat_bindings a' = _repeat_bindings a ->
    _repeat_var a' = _repeat_var a -> run_button a' = run_button a ->
    P a -> P a'.

(** The attributes only [__init__] assigns have these values. *)
Definition has_config (subs : gmap string string) (bindings : list string)
    (a : CommandAsker) : Prop :=
  _substitutions a = subs /\ _repeat_bindings a = bindings.

(** An enabled Run button goes with a repeat key that is a repeat binding. *)
Definition button_inv (a : CommandAsker) : Prop :=
  run_button a = StateNormal -> _repeat_var a ∈ _repeat_bindings a.

(** The classes of [except (ValueError, KeyError, IndexError)]. *)
Definition substitution_errors : list exc_class := [ValueError; KeyError; IndexError].

(** The display after the [except] branch of [validate]. *)
Definition show_error (d : text_widget) : text_widget :=
  text_config_state StateDisabled
    (text_insert_start "Substitution error"
       (text_delete_all (text_config StateNormal "TkDefaultFont" d))).

(** The display after the [else] branch of [validate]. *)
Definition show_value (value : string) (d : text_widget) : text_widget :=
  text_config_state StateDisabled
    (text_insert_start value
       (text_delete_all (text_config StateNormal "TkFixedFont" d))).

(** [_FormattingEntryAndLabels.validate], for the object [self] of the dialog
    and the two callbacks its constructor was given. *)
Definition validate (self : field)
    (_get_substituted_value : CommandAsker -> result string)
    (_validated_callback : M CommandAsker unit) : M CommandAsker unit :=
  fun a =>
    match _get_substituted_value a with
    | Raise e =>
        if catches substitution_errors e
        then _validated_callback
               (set_display self (show_error (_command_display (get_field self a))) a)
        else (a, Raise e)
    | Ok value =>
        _validated_callback
          (set_display self (show_value value (_command_display (get_field self a))) a)
    end.

(** [_CommandAsker.get_command]. *)
Definition get_command (a : CommandAsker) : Command :=
  MkCommand (format_var_get (command a)) (format_var_get (cwd a))
    (terminal_var a) (_substitutions a).

(** [_CommandAsker.get_key_id]; [list.index] raises [ValueError] for a value
    that is not in the list. *)
Definition get_key_id (a : CommandAsker) : result nat :=
  match list_index (_repeat_var a) (_repeat_bindings a) with
  | Some i => Ok i
  | None => Raise (Exn ValueError "is not in list" "")
  end.

Section WithEnv.
Context `{env : RunEnv}.

(** [_CommandAsker.command_and_cwd_are_valid]. *)
Definition command_and_cwd_are_valid (a : CommandAsker) : result bool :=
  match format_command (get_command a) with
  | Raise e => if catches substitution_errors e then Ok false else Raise e
  | Ok command =>
      match format_cwd (get_command a) with
      | Raise e => if catches substitution_errors e then Ok false else Raise e
      | Ok cwd => Ok (truthy (strip command) && is_dir cwd && is_absolute cwd)
      end
  end.

(** Formatting raises nothing but what the dialog catches. *)
Definition formats_safely : Prop :=
  forall c : Command,
    (forall e, format_command c = Raise e -> catches substitution_errors e = true)
    /\ (forall e, format_cwd c = Raise e -> catches substitution_errors e = true).

(** [_CommandAsker.update_run_button]. *)
Definition update_run_button : M CommandAsker unit :=
  fun a =>
    match command_and_cwd_are_valid a with
    | Raise e => (a, Raise e)
    | Ok valid =>
        if valid && bool_decide (_repeat_var a ∈ _repeat_bindings a)
        then (set_run_button StateNormal a, Ok tt)
        else (set_run_button StateDisabled a, Ok tt)
    end.

(** The [get_substituted_value] of either field, as [__init__] passes them:
    [lambda: self.get_command().format_command()] and
    [lambda: str(self.get_command().format_cwd())]. *)
Definition get_substituted_value (self : field) (a : CommandAsker) : result string :=
  match self with
  | CommandField => format_command (get_command a)
  | CwdField =>
      match format_cwd (get_command a) with
      | Ok p => Ok (path_str p)
      | Raise e => Raise e
      end
  end.

(** [self.command.validate] and [self.cwd.validate] of a dialog. *)
Definition field_validate (self : field) : M CommandAsker unit :=
  validate self (get_substituted_value self) update_run_button.

(** [self.command.format_var.set(s)] and [self.cwd.format_var.set(s)]: the
    entry shows the new text, then the write trace calls [validate]. *)
Definition format_var_set (self : field) (s : string) : M CommandAsker unit :=
  modify (fun a => set_entry self (entry_set_text s (entry (get_field self a))) a);;
  call_wrapper (field_validate self).

(** [self._repeat_var.set(s)], with its write trace. *)
Definition repeat_var_set (s : string) : M CommandAsker unit :=
  modify (set_repeat_var s);;
  call_wrapper update_run_button.

(** [_CommandAsker._select_command_autocompletion]. *)
Definition _select_command_autocompletion (command : Command) (prefix : string)
    : M CommandAsker unit :=
  (if startswith (command_format command) prefix then mret tt
   else raise (Exn AssertionError "" ""));;
  format_var_set CommandField (command_format command);;
  modify (fun a => set_entry CommandField
                     (icursor (String.length prefix) (entry (get_field CommandField a))) a);;
  modify (fun a =>
            let e := entry (get_field CommandField a) in
            set_entry CommandField (selection_range (entry_insert e) (entry_index_end e) e) a);;
  format_var_set CwdField (cwd_format command);;
  modify (set_terminal_var (external_terminal command)).

(** The loop [for item in self._suggestions] of [_autocomplete]. *)
Fixpoint autocomplete_loop (items : list Command) (prefix : string)
    : M CommandAsker (option string) :=
  match items with
  | [] => mret None
  | item :: items' =>
      if startswith (command_format item) prefix
      then _select_command_autocompletion item prefix;; mret (Some "break")
      else autocomplete_loop items' prefix
  end.

(** [_CommandAsker._autocomplete]; [char] is [event.char]. *)
Definition _autocomplete (char : string) : M CommandAsker (option string) :=
  fun a =>
    if negb (String.length char =? 1)%nat || negb (isprintable char)
    then (a, Ok None)
    else
      let e := entry (command a) in
      let text_to_keep := entry_get e in
      match entry_selection e with
      | Some (sel_first, sel_last) =>         (* selection_present() *)
          if negb (sel_last =? entry_index_end e)%nat
          then (a, Ok None)
          else autocomplete_loop (_suggestions a)
                 (str_take sel_first text_to_keep +:+ char) a
      | None => autocomplete_loop (_suggestions a) (text_to_keep +:+ char) a
      end.

(** The conditions under which [_autocomplete] goes on to its loop: one
    printable character, and a selection, if there is one, that ends where
    the entry ends. *)
Definition autocomplete_acts (char : string) (a : CommandAsker) : Prop :=
  String.length char = 1
  /\ isprintable char = true
  /\ forall sel_first sel_last,
       entry_selection (entry (command a)) = Some (sel_first, sel_last) ->
       sel_last = entry_index_end (entry (command a)).

(** [text_to_keep] when the loop starts: the text of the entry before the
    selection. *)
Definition text_to_keep (a : CommandAsker) : string :=
  match entry_selection (entry (command a)) with
  | Some (sel_first, _) => str_take sel_first (entry_get (entry (command a)))
  | None => entry_get (entry (command a))
  end.

(** [_CommandAsker.on_run_clicked]. *)
Definition on_run_clicked : M CommandAsker unit :=
  modify (set_run_clicked true);;
  modify window_destroy.

(** What the constructor of [_FormattingEntryAndLabels] leaves: an empty
    [format_var] and entry, [selection_range(0, "end")] on it, and the
    display. *)
Definition new_field : FormattingEntryAndLabels :=
  MkFormattingEntryAndLabels
    (selection_range 0 (entry_index_end (EntryWidget "" 0 None)) (EntryWidget "" 0 None))
    create_passive_text_widget.

(** [[utils.get_binding(f"<<Run:Repeat{key_id}>>") for key_id in range(4)]]. *)
Definition repeat_bindings : list string :=
  map (fun key_id => get_binding ("<<Run:Repeat" +:+ key_id +:+ ">>")) ["0"; "1"; "2"; "3"].

(** The object when [__init__] has made its widgets and variables, the Run
    button included: empty fields, the first radio button chosen, [repeat]
    the repeat key of the context. *)
Definition init_widgets (ctx : Context) (repeat : string) : CommandAsker :=
  MkCommandAsker true (get_substitutions ctx) new_field new_field false
    repeat_bindings repeat StateNormal false [].

(** The statements of [__init__] that follow, from
    [previous_command = history.get_command_to_repeat(ctx)] on. *)
Definition init_fill (ctx : Context) : M CommandAsker unit :=
  match get_command_to_repeat ctx with
  | None => format_var_set CwdField "{folder_path}"
  | Some previous_command => _select_command_autocompletion previous_command ""
  end;;
  modify (set_suggestions (get_commands_to_suggest ctx));;
  modify (fun a =>
            let e := entry (get_field CommandField a) in
            set_entry CommandField (selection_range 0 (entry_index_end e) e) a);;
  field_validate CommandField;;
  field_validate CwdField.

(** [_CommandAsker.__init__], without the layout: the object it leaves, or
    the exception it ends with. *)
Definition __init__ (ctx : Context) : result CommandAsker :=
  match list_getitem repeat_bindings (key_id ctx) with
  | Raise e => Raise e
  | Ok repeat =>
      match init_fill ctx (init_widgets ctx repeat) with
      | (a, Ok _) => Ok a
      | (_, Raise e) => Raise e
      end
  end.

(** What the user does to an open dialog, by the bindings and commands
    [__init__] sets up. *)
Inductive ui_event : Type :=
  | KeyInCommand (char : string)          (* <Key> in the command entry *)
  | Edited (self : field) (text : string) (* an edit that leaves [text] in an entry *)
  | AltP | AltE                           (* <Alt-p>, <Alt-e> and the radio buttons *)
  | RepeatChosen (s : string)             (* the combobox *)
  | RunInvoked                            (* the Run button, <Return> *)
  | Cancelled.                            (* the Cancel button, <Escape> *)

Definition handle (ev : ui_event) : M CommandAsker unit :=
  match ev with
  | KeyInCommand char => call_wrapper (_autocomplete char;; mret tt)
  | Edited self text => format_var_set self text
  | AltP => modify (set_terminal_var false)
  | AltE => modify (set_terminal_var true)
  | RepeatChosen s => repeat_var_set s
  | RunInvoked =>
      fun a =>
        match run_button a with
        | StateNormal => call_wrapper on_run_clicked a
        | StateDisabled => (a, Ok tt)
        end
  | Cancelled => modify window_destroy
  end.

(** The dialog after a sequence of events. *)
Definition dialog_run (events : list ui_event) (a : CommandAsker) : CommandAsker :=
  fold_left (fun a ev => fst (handle ev a)) events a.

(** [asker.window.wait_window()]: the events are handled until the window is
    destroyed; [None] when the events end and the window is still there. *)
Fixpoint wait_window (events : list ui_event) (a : CommandAsker) : option CommandAsker :=
  if window a then
    match events with
    | [] => None
    | ev :: events' => wait_window events' (fst (handle ev a))
    end
  else Some a.

(** The windows of the Tk interpreter, by path name, and the one that has
    the focus. *)
Record World : Type := MkWorld {
  windows : list string;
  focus : option string
}.

(** [tk.call("winfo", "exists", name)]. *)
Definition winfo_exists (name : string) (w : World) : bool :=
  bool_decide (name ∈ windows w).

(** [ask_command] up to [wait_window]: [None] when it has returned [None]
    already, the dialog it waits for otherwise. *)
Definition ask_command_enter (ctx : Context) (w : World)
    : World * result (option CommandAsker) :=
  if winfo_exists ".run_command_asker" w then
    (MkWorld (windows w) (Some ".run_command_asker"), Ok None)
  else
    let w1 := MkWorld (".run_command_asker" :: windows w) (focus w) in
    match __init__ ctx with
    | Raise e => (w1, Raise e)
    | Ok asker => (w1, Ok (Some asker))
    end.

(** The window of the dialog is destroyed. *)
Definition destroy_asker_window (w : World) : World :=
  MkWorld (filter (fun name => name ≠ ".run_command_asker") (windows w)) (focus w).

(** [ask_command], with the events the user sends the dialog while it
    waits.  [None]: the events ended before the window was destroyed. *)
Definition ask_command (ctx : Context) (events : list ui_event) (w : World)
    : option (World * result (option (Command * nat))) :=
  match ask_command_enter ctx w with
  | (w1, Raise e) => Some (w1, Raise e)
  | (w1, Ok None) => Some (w1, Ok None)
  | (w1, Ok (Some asker)) =>
      match wait_window events asker with
      | None => None
      | Some asker' =>
          let w2 := destroy_asker_window w1 in
          if run_clicked asker' then
            match get_key_id asker' with
            | Ok key => Some (w2, Ok (Some (get_command asker', key)))
            | Raise e => Some (w2, Raise e)
            end
          else Some (w2, Ok None)
      end
  end.

(** What happens to the windows while the application runs: [ask_command]
    is called (again, perhaps while an earlier call waits), or the dialog is
    closed. *)
Inductive world_event : Type :=
  | AskCommand (ctx : Context)
  | DialogClosed.

Definition world_step (ev : world_event) (w : World) : World :=
  match ev with
  | AskCommand ctx => fst (ask_command_enter ctx w)
  | DialogClosed => destroy_asker_window w
  end.

Definition world_run (evs : list world_event) (w : World) : World :=
  fold_left (fun w ev => world_step ev w) evs w.

(** The number of run-command dialogs that exist. *)
Definition dialogs_open (w : World) : nat :=
  length (filter (fun name => name = ".run_command_asker") (windows w)).

End WithEnv.

End Dialog.

(** ** Concrete inputs *)

Module Examples.
Import Os Tk Common Dialog.

(** A file system in which the first backup name of [a.txt] is taken. *)
Definition fs_example : FS :=
  <["a.txt" := [Byte.x01]]> (<["a-backup.txt" := [Byte.x02]]> ∅).

(** A [with] body that overwrites the file and then fails. *)
Definition failing_body : FS -> FS * result unit :=
  fun fs => (<["a.txt" := [Byte.x03]]> fs, Raise (Exn OSError "disk full" "")).

(** A [with] body that overwrites the file and is then interrupted from the
    keyboard. *)
Definition interrupted_body : FS -> FS * result unit :=
  fun fs => (<["a.txt" := [Byte.x03]]> fs, Raise (Exn KeyboardInterrupt "" "")).

(** The file system [interrupted_body] leaves: the file as the body wrote
    it, the backup copy still there. *)
Definition fs_interrupted : FS :=
  <["a.txt" := [Byte.x03]]> (<["a-backup-backup.txt" := [Byte.x01]]> fs_example).

(** A [with] body that removes the backup copy and then fails. *)
Definition meddling_body : FS -> FS * result unit :=
  fun fs => (delete "a-backup-backup.txt" fs, Raise (Exn OSError "disk full" "")).

(** The substitutions of a file [/home/me/x.py]. *)
Definition example_substitutions : gmap string string :=
  <["folder_path" := "/home/me"]> (<["file_name" := "x.py"]> ∅).

(** The modules around the dialog, with [/home/me] the only directory. *)
Definition example_env : RunEnv := spec_env {["/home/me"]}.

(** The context of that file. *)
Definition example_ctx : @Context example_env := example_substitutions.

Definition example_suggestions : list Command :=
  [ MkCommand "make" "{folder_path}" false example_substitutions;
    MkCommand "python3 {file_name}" "{folder_path}" true example_substitutions;
    MkCommand "pytest" "{folder_path}" false example_substitutions ].

Definition example_display : text_widget := TextWidget "" StateDisabled "TkDefaultFont".

(** A dialog in which [p] has been typed after an earlier completion whose
    rest is still selected. *)
Definition example_asker : CommandAsker :=
  MkCommandAsker true example_substitutions
    (MkFormattingEntryAndLabels (EntryWidget "pytest" 1 (Some (1, 6))) example_display)
    (MkFormattingEntryAndLabels (EntryWidget "{folder_path}" 0 None) example_display)
    false ["F5"; "F6"; "F7"; "F8"] "F6" StateDisabled false example_suggestions.

(** The same dialog with a placeholder no substitution is known for, and
    with differences in what formatting does not read. *)
Definition example_asker_unknown : CommandAsker :=
  MkCommandAsker true example_substitutions
    (MkFormattingEntryAndLabels (EntryWidget "run {nothing}" 0 None) example_display)
    (MkFormattingEntryAndLabels (EntryWidget "{folder_path}" 0 None) example_display)
    false ["F5"; "F6"; "F7"; "F8"] "F6" StateDisabled false example_suggestions.

Definition example_asker_other : CommandAsker :=
  MkCommandAsker true example_substitutions
    (MkFormattingEntryAndLabels (EntryWidget "pytest" 6 None)
       (TextWidget "pytest" StateDisabled "TkFixedFont"))
    (MkFormattingEntryAndLabels (EntryWidget "{folder_path}" 3 None) example_display)
    false ["F5"; "F6"; "F7"; "F8"] "F8" StateNormal true [].

(** A Tk interpreter in which the dialog is open. *)
Definition example_world : World := MkWorld [".run_command_asker"; "."] (Some ".").

End Examples.

(** ** States of the dialog *)

Module DialogInvariants.
Import Str Tk Common Dialog.

Section WithEnv.
Context `{env : RunEnv}.

(** Formatting does not read the choice of terminal, which the dialog
    changes without calling [update_run_button]. *)
Definition terminal_independent : Prop :=
  forall (command_format cwd_format : string) (t t' : bool) (subs : gmap string string),
    format_command (MkCommand command_format cwd_format t subs)
    = format_command (MkCommand command_format cwd_format t' subs)
    /\ format_cwd (MkCommand command_format cwd_format t subs)
       = format_cwd (MkCommand command_format cwd_format t' subs).

(** The state of the Run button is what [update_run_button] would set it to
    now. *)
Definition run_button_up_to_date (a : CommandAsker) : Prop :=
  run_button a = StateNormal <->
  command_and_cwd_are_valid a = Ok true /\ _repeat_var a ∈ _repeat_bindings a.

End WithEnv.

End DialogInvariants.

(** ** [porcupine/utils.py]: the hooks *)

Module Hooks.

(** What a callback of a hook can raise: an exception of the classes of
    [Py], or the [RuntimeError] that [ContextManagerHook.run] raises
    itself. *)
Inductive error : Type :=
  | Builtin (e : exn)
  | RuntimeError (msg : string).

(** The classes [unhandled_errors] can name. *)
Inductive error_class : Type :=
  | Class (c : exc_class)
  | RuntimeErrorClass.

(** [isinstance(error, c)]; [RuntimeError] derives from [Exception]. *)
Definition isinstance_error (e : error) (c : error_class) : bool :=
  match e, c with
  | Builtin e, Class c => isinstance e c
  | Builtin _, RuntimeErrorClass => false
  | RuntimeError _, Class c => bool_decide (c = Exception) || bool_decide (c = BaseException)
  | RuntimeError _, RuntimeErrorClass => true
  end.

(** [isinstance(error, classes)] for a tuple of classes. *)
Definition isinstance_any (e : error) (classes : list error_class) : bool :=
  existsb (isinstance_error e) classes.

(** How a call ends. *)
Inductive outcome (A : Type) : Type :=
  | Return (x : A)
  | Throw (e : error).
Arguments Return {A} x.
Arguments Throw {A} e.

(** A connected callback is a function object; [list.remove] compares such
    objects by identity, which a number stands for. *)
Definition callable : Type := nat.

(** An object of the class [CallbackHook] (and of its subclass
    [ContextManagerHook], which adds no attribute).  [_log] holds what
    [self._log.exception] has been called for: the callback whose
    [nice_repr] is in the message, and the exception being handled. *)
Record CallbackHook : Type := MkCallbackHook {
  _log : list (callable * error);
  _unhandled : list error_class;
  callbacks : list callable
}.

(** [CallbackHook.__init__]. *)
Definition __init__ (unhandled_errors : list error_class) : CallbackHook :=
  MkCallbackHook [] unhandled_errors [].

(** [CallbackHook.connect]: the hook it leaves and the value it returns. *)
Definition connect (callback : callable) (self : CallbackHook) : CallbackHook * callable :=
  (MkCallbackHook (_log self) (_unhandled self) (callbacks self ++ [callback]), callback).

(** [list.remove(x)]: the list without the first [x], [None] when there is
    no [x] (where Python raises ValueError). *)
Fixpoint list_remove (x : callable) (l : list callable) : option (list callable) :=
  match l with
  | [] => None
  | y :: l' => if decide (y = x) then Some l' else (fun r => y :: r) <$> list_remove x l'
  end.

(** [CallbackHook.disconnect]. *)
Definition disconnect (callback : callable) (self : CallbackHook)
    : CallbackHook * outcome unit :=
  match list_remove callback (callbacks self) with
  | Some l => (MkCallbackHook (_log self) (_unhandled self) l, Return tt)
  | None => (self, Throw (Builtin (Exn ValueError "list.remove(x): x not in list" "")))
  end.

Section Run.
Context {W Args : Type}.

(** What a callback can read and change: the hook it is connected to, and
    the rest of the program. *)
Record state : Type := MkState {
  hook : CallbackHook;
  world : W
}.

(** How a call of [next] on a generator ends: at a [yield], with
    StopIteration, or with another exception. *)
Inductive step : Type :=
  | Yielded
  | Stopped
  | Raised (e : error).

(** An object with a [__next__] method, as far as [ContextManagerHook.run]
    uses it: what the first call of [next] does, and what the second does
    when the first has ended at a [yield]. *)
Record generator : Type := MkGenerator {
  first_next : state -> state * step;
  second_next : state -> state * step
}.

(** The connected functions: what a call of [callback] with the arguments
    of [run] does and returns;
    [Some] for an object with a [__next__] method, [None] for any other
    object. *)
Variable call : callable -> Args -> state -> state * outcome (option generator).

Definition log_exception (callback : callable) (error : error) (s : state) : state :=
  MkState (MkCallbackHook (_log (hook s) ++ [(callback, error)]) (_unhandled (hook s))
             (callbacks (hook s)))
          (world s).

(** [CallbackHook._handle_error]. *)
Definition _handle_error (callback : callable) (error : error) (s : state)
    : state * outcome unit :=
  if isinstance_any error (_unhandled (hook s)) then (s, Throw error)
  else (log_exception callback error s, Return tt).

(** The body of the loop of [CallbackHook.run], for one callback. *)
Definition run_one (callback : callable) (args : Args) (s : state) : state * outcome unit :=
  match call callback args s with
  | (s1, Return _) => (s1, Return tt)
  | (s1, Throw e) =>
      if isinstance_error e (Class Exception) then _handle_error callback e s1
      else (s1, Throw e)
  end.

(** [for callback in self.callbacks] from index [i] on: the list iterator
    reads the list as it is when each iteration starts, so a callback that
    connects or disconnects changes what is run next.  [None] when [fuel]
    iterations were not enough. *)
Fixpoint run_from (fuel i : nat) (args : Args) (s : state) : option (state * outcome unit) :=
  match fuel with
  | O => None
  | S fuel' =>
      match callbacks (hook s) !! i with
      | None => Some (s, Return tt)
      | Some callback =>
          match run_one callback args s with
          | (s1, Return _) => run_from fuel' (S i) args s1
          | (s1, Throw e) => Some (s1, Throw e)
          end
      end
  end.

(** [CallbackHook.run]. *)
Definition run (fuel : nat) (args : Args) (s : state) : option (state * outcome unit) :=
  run_from fuel 0 args s.

(** The loop of [CallbackHook.run] over a list that is given. *)
Fixpoint run_list (l : list callable) (args : Args) (s : state) : state * outcome unit :=
  match l with
  | [] => (s, Return tt)
  | callback :: l' =>
      match run_one callback args s with
      | (s1, Return _) => run_list l' args s1
      | (s1, Throw e) => (s1, Throw e)
      end
  end.

(** The [except Exception as e: self._handle_error(callback, e)] of both
    loops of [ContextManagerHook.run], for an exception [e] raised in the
    [try] block. *)
Definition handle_raised {A : Type} (callback : callable) (e : error) (s : state)
    : state * outcome (option A) :=
  if isinstance_error e (Class Exception) then
    match _handle_error callback e s with
    | (s1, Return _) => (s1, Return None)
    | (s1, Throw e') => (s1, Throw e')
    end
  else (s, Throw e).

(** The body of the first loop of [ContextManagerHook.run]: the generator
    that is appended to [generators], if one is. *)
Definition set_up (callback : callable) (args : Args) (s : state)
    : state * outcome (option generator) :=
  match call callback args s with
  | (s1, Throw e) => handle_raised callback e s1
  | (s1, Return None) => handle_raised callback (RuntimeError "the function didn't yield") s1
  | (s1, Return (Some g)) =>
      match first_next g s1 with
      | (s2, Yielded) => (s2, Return (Some g))
      | (s2, Stopped) => handle_raised callback (RuntimeError "the function didn't yield") s2
      | (s2, Raised e) => handle_raised callback e s2
      end
  end.

(** The first loop of [ContextManagerHook.run], from index [i] on. *)
Fixpoint set_up_from (fuel i : nat) (args : Args) (generators : list (callable * generator))
    (s : state) : option (state * outcome (list (callable * generator))) :=
  match fuel with
  | O => None
  | S fuel' =>
      match callbacks (hook s) !! i with
      | None => Some (s, Return generators)
      | Some callback =>
          match set_up callback args s with
          | (s1, Return (Some g)) =>
              set_up_from fuel' (S i) args (generators ++ [(callback, g)]) s1
          | (s1, Return None) => set_up_from fuel' (S i) args generators s1
          | (s1, Throw e) => Some (s1, Throw e)
          end
      end
  end.

(** The second loop of [ContextManagerHook.run]. *)
Fixpoint tear_down (generators : list (callable * generator)) (s : state)
    : state * outcome unit :=
  match generators with
  | [] => (s, Return tt)
  | (callback, g) :: generators' =>
      match
        match second_next g s with
        | (s1, Stopped) => (s1, Return None)
        | (s1, Yielded) =>
            handle_raised (A := unit) callback (RuntimeError "the function yielded twice") s1
        | (s1, Raised e) => handle_raised callback e s1
        end
      with
      | (s2, Return _) => tear_down generators' s2
      | (s2, Throw e) => (s2, Throw e)
      end
  end.

(** [with hook.run(args): body] for a [ContextManagerHook].  An exception
    of the body is thrown into [run] at its [yield], which no [try]
    encloses: the second loop is not run.  Generators that are left
    suspended when the statement ends with an exception are not resumed by
    [run]; what closing them does is not part of this model. *)
Definition with_run (fuel : nat) (args : Args) (body : state -> state * outcome unit)
    (s : state) : option (state * outcome unit) :=
  match set_up_from fuel 0 args [] s with
  | None => None
  | Some (s1, Throw e) => Some (s1, Throw e)
  | Some (s1, Return generators) =>
      match body s1 with
      | (s2, Throw e) => Some (s2, Throw e)
      | (s2, Return _) => Some (tear_down generators s2)
      end
  end.

(** The two loops of [ContextManagerHook.run] as they go when whatever
    goes wrong in a callback is logged and nothing is raised.  In the first
    loop a callback that raises, that returns no generator or whose
    generator ends without a [yield] is logged, with the RuntimeError
    [the function didn't yield] in the last two cases, and is not among the
    generators; in the second a generator that raises or that yields again,
    the RuntimeError [the function yielded twice], is logged.  Both loops go
    on with the next callback. *)
Definition set_up_logging (callback : callable) (args : Args) (s : state)
    : state * option generator :=
  match call callback args s with
  | (s1, Throw e) => (log_exception callback e s1, None)
  | (s1, Return None) =>
      (log_exception callback (RuntimeError "the function didn't yield") s1, None)
  | (s1, Return (Some g)) =>
      match first_next g s1 with
      | (s2, Yielded) => (s2, Some g)
      | (s2, Stopped) =>
          (log_exception callback (RuntimeError "the function didn't yield") s2, None)
      | (s2, Raised e) => (log_exception callback e s2, None)
      end
  end.

Fixpoint set_up_all_logging (l : list callable) (args : Args)
    (generators : list (callable * generator)) (s : state)
    : state * list (callable * generator) :=
  match l with
  | [] => (s, generators)
  | callback :: l' =>
      match set_up_logging callback args s with
      | (s1, Some g) => set_up_all_logging l' args (generators ++ [(callback, g)]) s1
      | (s1, None) => set_up_all_logging l' args generators s1
      end
  end.

Fixpoint tear_down_logging (generators : list (callable * generator)) (s : state) : state :=
  match generators with
  | [] => s
  | (callback, g) :: generators' =>
      match second_next g s with
      | (s1, Stopped) => tear_down_logging generators' s1
      | (s1, Yielded) =>
          tear_down_logging generators'
            (log_exception callback (RuntimeError "the function yielded twice") s1)
      | (s1, Raised e) => tear_down_logging generators' (log_exception callback e s1)
      end
  end.

(** A callback that leaves the list of callbacks as it is, whatever it is
    called with and however it ends, also while its generator runs up to
    its first [yield]. *)
Definition keeps_callbacks (callback : callable) : Prop :=
  forall args s,
    callbacks (hook (fst (call callback args s))) = callbacks (hook s)
    /\ forall g s1, call callback args s = (s1, Return (Some g)) ->
         callbacks (hook (fst (first_next g s1))) = callbacks (hook s1).

(** A callback that leaves the classes of unhandled errors as they are. *)
Definition keeps_unhandled (callback : callable) : Prop :=
  forall args s,
    _unhandled (hook (fst (call callback args s))) = _unhandled (hook s)
    /\ forall g s1, call callback args s = (s1, Return (Some g)) ->
         _unhandled (hook (fst (first_next g s1))) = _unhandled (hook s1)
         /\ forall s2, _unhandled (hook (fst (second_next g s2))) = _unhandled (hook s2).

(** A callback that raises nothing but exceptions [except Exception]
    catches, also from its generator. *)
Definition raises_exceptions_only (callback : callable) : Prop :=
  forall args s,
    (forall s1 e, call callback args s = (s1, Throw e) ->
       isinstance_error e (Class Exception) = true)
    /\ forall g s1, call callback args s = (s1, Return (Some g)) ->
         forall s2 s3 e,
           first_next g s2 = (s3, Raised e) \/ second_next g s2 = (s3, Raised e) ->
           isinstance_error e (Class Exception) = true.

(** A generator function whose generator [g] sets up, yields once and
    tears down, raising nothing: [setup] is what runs before its [yield],
    [teardown] what runs after it. *)
Definition yields_once (args : Args) (callback : callable) (g : generator)
    (setup teardown : state -> state) : Prop :=
  (forall s, call callback args s = (s, Return (Some g)))
  /\ (forall s, first_next g s = (setup s, Yielded))
  /\ (forall s, second_next g s = (teardown s, Stopped)).

End Run.

End Hooks.

(** ** [porcupine/utils.py]: widgets *)

Module Widgets.

(** A widget with the chain of its masters, which ends at the [tk.Tk]
    object.  [toplevel] tells a [tk.Toplevel] (or an object of a subclass)
    from the other widgets. *)
Inductive widget : Type :=
  | TkRoot
  | Widget (toplevel : bool) (name : string) (master : widget).

(** [isinstance(widget, (tk.Tk, tk.Toplevel))]. *)
Definition is_window (w : widget) : bool :=
  match w with
  | TkRoot => true
  | Widget toplevel _ _ => toplevel
  end.

(** [get_window]. *)
Fixpoint get_window (w : widget) : widget :=
  match w with
  | TkRoot => TkRoot
  | Widget true _ _ => w
  | Widget false _ master => get_window master
  end.

(** [widget.master], [k] times; [None] past the [tk.Tk] object. *)
Fixpoint nth_master (k : nat) (w : widget) : option widget :=
  match k with
  | O => Some w
  | S k' =>
      match w with
      | TkRoot => None
      | Widget _ _ master => nth_master k' master
      end
  end.

(** The bindings of one widget: the script bound to each sequence that has
    one. *)
Definition bindings : Type := gmap string string.

(** [widget.bind(sequence, script)] with a string for a script, which
    tkinter hands to Tk's [bind] as it is: an empty script removes the
    binding, a script that starts with [+] is added after the script that is
    bound, on a line of its own, and any other replaces it. *)
Definition bind (sequence script : string) (b : bindings) : bindings :=
  match script with
  | EmptyString => delete sequence b
  | String c rest =>
      if Ascii.eqb c "+" then
        match b !! sequence with
        | Some old => <[sequence := old +:+ String "010" rest]> b
        | None => <[sequence := rest]> b
        end
      else <[sequence := script]> b
  end.

(** [copy_bindings(widget1, widget2)], for two widgets that are not the
    same: the bindings of [widget2] it leaves.  [widget1.bind()] gives the
    sequences that are bound, [widget1.bind(keysym)] the script of each. *)
Definition copy_bindings (widget1 widget2 : bindings) : bindings :=
  map_fold (fun keysym tcl_command widget2 => bind keysym tcl_command widget2)
    widget2 widget1.

End Widgets.

(** ** More concrete inputs *)

Module MoreExamples.
Import Os Tk Common Dialog Examples.

(** A [with] body that overwrites the file and returns. *)
Definition writing_body : FS -> FS * result unit :=
  fun fs => (<["a.txt" := [Byte.x03]]> fs, Ok tt).

(** The file system [writing_body] leaves inside [backup_open]. *)
Definition fs_written : FS :=
  <["a.txt" := [Byte.x03]]> (<["a-backup-backup.txt" := [Byte.x01]]> fs_example).

(** The modules around the dialog for a context whose history has a command
    to repeat and whose repeat key is the third. *)
Definition example_history_env : RunEnv := {|
  Path := string;
  path_str := fun p => p;
  is_dir := fun p => bool_decide (p = "/home/me");
  is_absolute := fun p => Str.startswith p "/";
  format_command := spec_format_command;
  format_cwd := spec_format_cwd;
  Context := gmap string string;
  get_substitutions := fun ctx => ctx;
  key_id := fun _ => 2%Z;
  get_command_to_repeat :=
    fun ctx => Some (MkCommand "pytest" "{folder_path}" true ctx);
  get_commands_to_suggest := fun _ => example_suggestions;
  get_binding := fun s => s;
  create_passive_text_widget := example_display
|}.

Definition example_history_ctx : @Context example_history_env := example_substitutions.

(** The same modules for a context whose repeat key is none of the four. *)
Definition example_bad_key_env : RunEnv := {|
  Path := string;
  path_str := fun p => p;
  is_dir := fun p => bool_decide (p = "/home/me");
  is_absolute := fun p => Str.startswith p "/";
  format_command := spec_format_command;
  format_cwd := spec_format_cwd;
  Context := gmap string string;
  get_substitutions := fun ctx => ctx;
  key_id := fun _ => 4%Z;
  get_command_to_repeat := fun _ => None;
  get_commands_to_suggest := fun _ => example_suggestions;
  get_binding := fun s => s;
  create_passive_text_widget := example_display
|}.

Definition example_bad_key_ctx : @Context example_bad_key_env := example_substitutions.

(** Modelled from the spec: [Command.format_command] of [common.py] as
    [spec_format_command] has it, and for the template [{folder_path.x}]
    what [str.format] does with a field that names an attribute: it asks the
    string that stands for [folder_path] for its attribute [x], which a
    [str] does not have, an AttributeError. *)
Definition attribute_format_command (c : Command) : result string :=
  if bool_decide (command_format c = "{folder_path.x}")
  then Raise (Exn AttributeError "'str' object has no attribute 'x'" "")
  else spec_format_command c.

(** The modules around the dialog with that formatting, [/home/me] the only
    directory, no history and the first repeat key. *)
Definition example_attribute_env : RunEnv := {|
  Path := string;
  path_str := fun p => p;
  is_dir := fun p => bool_decide (p = "/home/me");
  is_absolute := fun p => Str.startswith p "/";
  format_command := attribute_format_command;
  format_cwd := spec_format_cwd;
  Context := gmap string string;
  get_substitutions := fun ctx => ctx;
  key_id := fun _ => 0%Z;
  get_command_to_repeat := fun _ => None;
  get_commands_to_suggest := fun _ => [];
  get_binding := fun s => s;
  create_passive_text_widget := example_display
|}.

Definition example_attribute_ctx : @Context example_attribute_env := example_substitutions.

(** A Tk interpreter with the main window only. *)
Definition example_world_closed : World := MkWorld ["."] (Some ".").

(** Callbacks that write what they do to a list of lines; the argument of
    [run] is a string. *)
Definition example_generator (name : string) : Hooks.generator (W := list string) :=
  Hooks.MkGenerator
    (fun s => (Hooks.MkState (Hooks.hook s) ((Hooks.world s ++ ["set up " +:+ name])%list),
               Hooks.Yielded))
    (fun s => (Hooks.MkState (Hooks.hook s) ((Hooks.world s ++ ["tear down " +:+ name])%list),
               Hooks.Stopped)).

(** A generator that yields a second time. *)
Definition example_generator_twice : Hooks.generator (W := list string) :=
  Hooks.MkGenerator
    (fun s => (Hooks.MkState (Hooks.hook s) ((Hooks.world s ++ ["set up twice"])%list),
               Hooks.Yielded))
    (fun s => (Hooks.MkState (Hooks.hook s) ((Hooks.world s ++ ["again"])%list),
               Hooks.Yielded)).

Definition example_call (callback : Hooks.callable) (args : string)
    (s : Hooks.state (W := list string))
    : Hooks.state (W := list string) * Hooks.outcome (option Hooks.generator) :=
  match callback with
  | 0 => (Hooks.MkState (Hooks.hook s) ((Hooks.world s ++ ["zero " +:+ args])%list),
          Hooks.Return None)
  | 1 => (s, Hooks.Throw (Hooks.Builtin (Exn ValueError "one" "")))
  | 2 => (Hooks.MkState (fst (Hooks.disconnect 2 (Hooks.hook s))) ((Hooks.world s ++ ["two"])%list),
          Hooks.Return None)
  | 3 => (s, Hooks.Throw (Hooks.Builtin (Exn KeyboardInterrupt "" "")))
  | 4 => (s, Hooks.Return (Some (example_generator "four")))
  | 5 => (s, Hooks.Return (Some (example_generator "five")))
  | 7 => (s, Hooks.Return (Some example_generator_twice))
  | _ => (Hooks.MkState (Hooks.hook s) ((Hooks.world s ++ ["other"])%list), Hooks.Return None)
  end%nat.

(** A hook with the default [unhandled_errors] and the given callbacks,
    and nothing written yet. *)
Definition example_hook (l : list Hooks.callable) : Hooks.state (W := list string) :=
  Hooks.MkState (Hooks.MkCallbackHook [] [] l) [].

(** A body of the [with] statement. *)
Definition example_body (s : Hooks.state (W := list string))
    : Hooks.state (W := list string) * Hooks.outcome unit :=
  (Hooks.MkState (Hooks.hook s) ((Hooks.world s ++ ["body"])%list), Hooks.Return tt).

(** A button in a frame of a dialog window. *)
Definition example_button : Widgets.widget :=
  Widgets.Widget false "button"
    (Widgets.Widget false "frame" (Widgets.Widget true "dialog" Widgets.TkRoot)).

End MoreExamples.

(** * Properties *)

Module OsFacts.
Import Str Os.

Lemma append_cons (a : ascii) (s t : string) : String a s +:+ t = String a (s +:+ t).
Proof. reflexivity. Qed.

Lemma append_nil_l (t : string) : "" +:+ t = t.
Proof. reflexivity. Qed.

Lemma append_nil_r (s : string) : s +:+ "" = s.
Proof. induction s as [|a s IH]; [done | by rewrite append_cons, IH]. Qed.

Lemma str_take_drop (n : nat) (s : string) : str_take n s +:+ str_drop n s = s.
Proof.
  revert s. induction n as [|n IH]; intros [|a s]; simpl; try reflexivity.
  by rewrite append_cons, IH.
Qed.

Lemma splitext_join (p name ext : string) :
  splitext p = (name, ext) -> name +:+ ext = p.
Proof.
  unfold splitext. case_match; intros [= <- <-].
  - apply str_take_drop.
  - apply append_nil_r.
Qed.

Lemma length_append (s t : string) :
  String.length (s +:+ t) = String.length s + String.length t.
Proof. induction s as [|a s IH]; [done | by rewrite append_cons; simpl; rewrite IH]. Qed.

Lemma exists_true (fs : FS) (path : string) :
  exists_ fs path = true <-> is_Some (fs !! path).
Proof. unfold exists_. by rewrite bool_decide_eq_true. Qed.

Lemma exists_false (fs : FS) (path : string) :
  exists_ fs path = false <-> fs !! path = None.
Proof. unfold exists_. by rewrite bool_decide_eq_false, eq_None_not_Some. Qed.

Lemma str_take_all (n : nat) (s : string) :
  String.length s <= n -> str_take n s = s.
Proof.
  revert n. induction s as [|a s IH]; intros [|n] H; simpl in *; try done; try lia.
  rewrite IH; [done | lia].
Qed.

Lemma str_drop_length (n : nat) (s : string) :
  String.length (str_drop n s) = String.length s - n.
Proof.
  revert s. induction n as [|n IH]; intros [|a s]; simpl; try done; try lia.
Qed.

Lemma str_drop_all (n : nat) (s : string) :
  String.length s <= n -> str_drop n s = "".
Proof.
  revert s. induction n as [|n IH]; intros [|a s] H; simpl in *; try done; try lia.
  apply IH. lia.
Qed.

Lemma startswith_length (p s : string) :
  String.prefix p s = true -> String.length p <= String.length s.
Proof.
  revert s. induction p as [|a p IH]; intros [|b s]; simpl; try done; try lia.
  destruct (ascii_dec a b); [|done]. intros H%IH. lia.
Qed.

End OsFacts.

Module BackupFacts.
Import Str Os Utils OsFacts Examples.

Lemma nth_name_length (k : nat) (name : string) :
  String.length (nth_name k name) = String.length name + 7 * k.
Proof.
  revert name. induction k as [|k IH]; intros name; simpl; [lia|].
  rewrite IH, length_append. simpl. lia.
Qed.

Lemma find_backup_name_fresh (fuel : nat) (fs : FS) (name ext name' : string) :
  find_backup_name fuel fs name ext = Some name' ->
  fs !! (name' +:+ ext) = None.
Proof.
  revert name. induction fuel as [|fuel IH]; intros name; simpl; [done|].
  destruct (exists_ fs (name +:+ ext)) eqn:E; [apply IH|].
  intros [= <-]. by apply exists_false.
Qed.

Lemma find_backup_name_None (fuel : nat) (fs : FS) (name ext : string) :
  find_backup_name fuel fs name ext = None ->
  forall k, k < fuel -> is_Some (fs !! (nth_name k name +:+ ext)).
Proof.
  revert name. induction fuel as [|fuel IH]; intros name H k Hk; [lia|].
  simpl in H. destruct (exists_ fs (name +:+ ext)) eqn:E; [|done].
  destruct k as [|k]; simpl.
  - by apply exists_true.
  - apply IH; [done | lia].
Qed.

Lemma find_backup_name_total (fs : FS) (name ext : string) :
  is_Some (find_backup_name (S (size fs)) fs name ext).
Proof.
  destruct (find_backup_name (S (size fs)) fs name ext) eqn:E; [by eexists|].
  exfalso.
  pose proof (find_backup_name_None _ _ _ _ E) as Hall.
  set (l := (fun k => nth_name k name +:+ ext) <$> seq 0 (S (size fs))).
  assert (Hnd : NoDup l).
  { apply (NoDup_fmap_1 String.length). unfold l. rewrite <- list_fmap_compose.
    apply NoDup_fmap_2_strong; [|apply NoDup_seq].
    intros x y _ _. simpl. rewrite !length_append, !nth_name_length. lia. }
  assert (Hsub : list_to_set l ⊆ dom fs).
  { intros x. rewrite elem_of_list_to_set. unfold l. rewrite list_elem_of_fmap.
    intros (k & -> & Hk). apply elem_of_seq in Hk. apply elem_of_dom, Hall. lia. }
  apply subseteq_size in Hsub.
  rewrite size_list_to_set, size_dom in Hsub by done.
  unfold l in Hsub. rewrite length_fmap, length_seq in Hsub. lia.
Qed.

Lemma backuppath_total (fs : FS) (path : string) :
  exists backup, backuppath fs path = Some backup /\ fs !! backup = None.
Proof.
  unfold backuppath. destruct (splitext path) as [name ext].
  destruct (find_backup_name_total fs name ext) as [name' E]. rewrite E.
  eexists; split; [done|]. by eapply find_backup_name_fresh.
Qed.

(** C1, as the code has it: for a file that exists at [path], [backup_open]
    finds a backup name that is free; if [open] or the body of the [with]
    block raises an exception that is an instance of [Exception] and the
    backup copy is still what [backup_open] made it, then after the statement
    the file at [path] has the bytes it had before, that exception goes on to
    the caller and nothing is left under the backup name.  An exception that
    is not an instance of [Exception] goes on to the caller with nothing
    restored and nothing removed: the file system is left exactly as [open]
    and the body left it, so the backup copy stays where they left it. *)
Theorem backup_open_restores_on_failure
    (fs : FS) (path : string) (content : list Byte.byte)
    (fault : option exn) (mode : open_mode) (body : FS -> FS * result unit) :
  fs !! path = Some content ->
  exists backup,
    backuppath fs path = Some backup /\ fs !! backup = None /\
    forall (fs2 : FS) (e : exn),
      protected_block fault mode path body (<[backup := content]> fs) = (fs2, Raise e) ->
      (isinstance e Exception = true ->
       fs2 !! backup = Some content ->
       exists fs',
         backup_open fault mode path body fs = Some (fs', Raise e) /\
         fs' !! path = Some content /\
         fs' !! backup = None)
      /\ (isinstance e Exception = false ->
          backup_open fault mode path body fs = Some (fs2, Raise e) /\
          (fs2 !! backup = Some content ->
           exists fs', backup_open fault mode path body fs = Some (fs', Raise e)
                       /\ fs' !! path = fs2 !! path /\ fs' !! backup = Some content)).
Proof.
  intros Hpath.
  destruct (backuppath_total fs path) as (backup & Hb & Hfresh).
  exists backup. split; [done|]. split; [done|].
  intros fs2 e Hblock.
  assert (Hne : backup <> path) by (intros ->; congruence).
  assert (Hopen : backup_open fault mode path body fs
                  = if isinstance e Exception then
                      match move backup path fs2 with
                      | (fs3, Ok _) => Some (fs3, Raise e)
                      | (fs3, Raise e') => Some (fs3, Raise e')
                      end
                    else Some (fs2, Raise e)).
  { unfold backup_open.
    assert (exists_ fs path = true) as -> by (apply exists_true; eauto).
    rewrite Hb. unfold copy. by rewrite Hpath, Hblock. }
  rewrite Hopen. split.
  - intros Hexc Hkept. rewrite Hexc. unfold move. rewrite Hkept.
    eexists. split; [done|]. split.
    + by rewrite lookup_insert_eq.
    + rewrite lookup_insert_ne by done. by rewrite lookup_delete_eq.
  - intros Hexc. rewrite Hexc. split; [done|]. intros Hkept. by exists fs2.
Qed.

Lemma backup_open_restores_on_failure_witness :
  (exists fs',
     backup_open None ModeWrite "a.txt" failing_body fs_example
     = Some (fs', Raise (Exn OSError "disk full" ""))
     /\ fs' !! "a.txt" = Some [Byte.x01]
     /\ fs' !! "a-backup-backup.txt" = None)
  /\ backup_open None ModeWrite "a.txt" interrupted_body fs_example
     = Some (fs_interrupted, Raise (Exn KeyboardInterrupt "" "")).
Proof.
  split.
  - destruct (backup_open_restores_on_failure fs_example "a.txt" [Byte.x01] None ModeWrite
                failing_body) as (backup & Hb & _ & H).
    + vm_compute. reflexivity.
    + vm_compute in Hb. injection Hb as <-.
      apply (H (<["a.txt" := [Byte.x03]]>
                  (<["a.txt" := []]> (<["a-backup-backup.txt" := [Byte.x01]]> fs_example)))
               (Exn OSError "disk full" "")).
      * vm_compute. reflexivity.
      * vm_compute. reflexivity.
      * vm_compute. reflexivity.
  - destruct (backup_open_restores_on_failure fs_example "a.txt" [Byte.x01] None ModeWrite
                interrupted_body) as (backup & Hb & _ & H).
    + vm_compute. reflexivity.
    + vm_compute in Hb. injection Hb as <-.
      apply (H fs_interrupted (Exn KeyboardInterrupt "" "")).
      * vm_compute. reflexivity.
      * vm_compute. reflexivity.
Defined.

(** C1 as stated fails for an exception that is not an instance of
    [Exception]: the [except Exception] clause lets a [KeyboardInterrupt]
    raised in the body pass, the file keeps what the body wrote and the
    backup copy stays. *)
Lemma backup_open_keyboard_interrupt_not_restored :
  fs_example !! "a.txt" = Some [Byte.x01]
  /\ snd (protected_block None ModeWrite "a.txt" interrupted_body
            (<["a-backup-backup.txt" := [Byte.x01]]> fs_example))
     = Raise (Exn KeyboardInterrupt "" "")
  /\ backup_open None ModeWrite "a.txt" interrupted_body fs_example
     = Some (fs_interrupted, Raise (Exn KeyboardInterrupt "" ""))
  /\ fs_interrupted !! "a.txt" = Some [Byte.x03]
  /\ fs_interrupted !! "a.txt" <> Some [Byte.x01]
  /\ fs_interrupted !! "a-backup-backup.txt" = Some [Byte.x01].
Proof.
  split; [reflexivity|]. split; [reflexivity|]. split; [vm_compute; reflexivity|].
  split; [reflexivity|]. split; [discriminate | reflexivity].
Qed.

(** Nor is the file restored when the body has removed the backup copy:
    [shutil.move] then fails, and its exception is the one that goes on. *)
Lemma backup_open_backup_removed_not_restored :
  backup_open None ModeWrite "a.txt" meddling_body fs_example
  = Some (<["a.txt" := []]> fs_example,
          Raise (Exn FileNotFoundError "a-backup-backup.txt" "")).
Proof. vm_compute. reflexivity. Qed.

End BackupFacts.

Module RunInThreadFacts.
Import Utils.
Section WithResultType.
Context {V : Type}.
Implicit Types (bf : result V) (s : rt_state V).

Lemma rt_inv_init bf : rt_inv bf run_in_thread.
Proof. split; [done|]. left. split; [done|]. by eexists. Qed.

Lemma rt_step_inv bf ev s s' :
  rt_inv bf s -> rt_step bf ev s = Some s' -> rt_inv bf s'.
Proof.
  intros [Hthr Hq] Hstep. destruct s as [th res pend calls err]. simpl in *.
  destruct ev, th; simpl in Hstep; try discriminate.
  - (* the worker runs *)
    injection Hstep as <-. destruct Hthr as [-> ->].
    destruct Hq as [[-> [p ->]] | (_ & _ & ?)]; [|done].
    unfold thread_target; simpl.
    destruct bf as [v|e]; simpl;
      [|destruct (isinstance e Exception) eqn:E; simpl; rewrite ?E].
    all: unfold rt_inv, expected_result, expected_error; simpl; rewrite ?E;
      (split; [done|]); left; eauto.
  - (* the worker exits *)
    injection Hstep as <-. split; [done|].
    destruct Hq as [[-> [p ->]] | (_ & _ & ?)]; [|done]. left; eauto.
  - (* check, thread running *)
    destruct Hq as [[-> [p ->]] | (_ & _ & ?)]; [|done].
    injection Hstep as <-. split; [done|]. left; eauto.
  - destruct Hq as [[-> [p ->]] | (_ & _ & ?)]; [|done].
    injection Hstep as <-. split; [done|]. left; eauto.
  - destruct Hq as [[-> [p ->]] | (_ & -> & _)]; [|done].
    injection Hstep as <-. split; [done|]. right. done.
Qed.

Lemma rt_run_inv bf evs s : rt_inv bf s -> rt_inv bf (rt_run bf evs s).
Proof.
  revert s. induction evs as [|ev evs IH]; intros s Hs; simpl; [done|].
  destruct (rt_step bf ev s) eqn:E; [|by apply IH].
  eapply IH, rt_step_inv; eauto.
Qed.

Lemma rt_reachable_inv bf evs : rt_inv bf (rt_run bf evs run_in_thread).
Proof. apply rt_run_inv, rt_inv_init. Qed.

Lemma rt_run_app bf evs1 evs2 s :
  rt_run bf (evs1 ++ evs2) s = rt_run bf evs2 (rt_run bf evs1 s).
Proof.
  revert s. induction evs1 as [|ev evs1 IH]; intros s; simpl; [done|].
  destruct (rt_step bf ev s); apply IH.
Qed.

Lemma thread_target_eq bf s :
  thread_target bf s =
  RtState Finishing
    (match expected_error bf with None => expected_result bf | Some _ => result_list s end)
    (pending s) (done_calls s) (expected_error bf).
Proof.
  unfold thread_target, expected_error, expected_result. destruct bf as [v|e]; [done|].
  by destruct (isinstance e Exception).
Qed.

Lemma rt_pair_run_cons bf bf' (ev : call_id * rt_event) evs (p : rt_pair V) :
  rt_pair_run bf bf' (ev :: evs) p = rt_pair_run bf bf' evs (rt_pair_step bf bf' ev p).
Proof. reflexivity. Qed.

Ltac pair_step :=
  rewrite rt_pair_run_cons; cbn -[thread_target rt_pair_run];
  rewrite ?thread_target_eq; cbn -[expected_result expected_error rt_pair_run].

(** Two calls of [run_in_thread]: there is a schedule in which the callback
    of the first comes first, and one in which that of the second does. *)
Lemma callbacks_in_either_order bf bf' :
  exists evs1 evs2,
    callback_order (rt_pair_run bf bf' evs1 run_in_thread_twice) = [FirstCall; SecondCall]
    /\ callback_order (rt_pair_run bf bf' evs2 run_in_thread_twice) = [SecondCall; FirstCall].
Proof.
  exists [(FirstCall, WorkerRuns); (FirstCall, WorkerExits); (FirstCall, MainLoopFires);
          (SecondCall, WorkerRuns); (SecondCall, WorkerExits); (SecondCall, MainLoopFires)],
         [(FirstCall, WorkerRuns); (SecondCall, WorkerRuns); (SecondCall, WorkerExits);
          (FirstCall, MainLoopFires); (SecondCall, MainLoopFires);
          (FirstCall, WorkerExits); (FirstCall, MainLoopFires)].
  split.
  - do 6 pair_step. reflexivity.
  - do 7 pair_step. reflexivity.
Qed.

(** C4: whatever [blocking_function] does and however the worker thread and
    the main loop take turns, [done_callback] is called at most once and only
    once the worker thread has exited; a call is made by a step of the main
    loop (a pending call of [check]) taken when the thread is no longer
    alive; and as long as the thread is alive, also when the result is
    already stored, the main loop only schedules [check] again, 100 ms
    later: nothing but the exit of the thread lets the callback be called.
    Between two calls of [run_in_thread] no order is kept: the callback of
    either can be the first to be called. *)
Theorem done_callback_once_after_thread_exit bf (evs : list rt_event) :
  let s := rt_run bf evs run_in_thread in
  length (done_calls s) <= 1
  /\ (done_calls s <> [] -> thread s = Exited)
  /\ (forall ev s', rt_step bf ev s = Some s' -> done_calls s' <> done_calls s ->
        ev = MainLoopFires /\ thread s = Exited /\ is_alive s = false)
  /\ (is_alive s = true ->
        exists s', rt_step bf MainLoopFires s = Some s'
                   /\ done_calls s' = [] /\ pending s' = [After 100])
  /\ (forall bf', exists evs1 evs2,
        callback_order (rt_pair_run bf bf' evs1 run_in_thread_twice)
          = [FirstCall; SecondCall]
        /\ callback_order (rt_pair_run bf bf' evs2 run_in_thread_twice)
          = [SecondCall; FirstCall]).
Proof.
  intros s. pose proof (rt_reachable_inv bf evs) as [Hthr Hq]. fold s in Hthr, Hq.
  split; [|split; [|split; [|split]]].
  - destruct Hq as [[-> _] | (-> & _)]; simpl; lia.
  - destruct Hq as [[-> _] | (_ & _ & ->)]; done.
  - intros ev s' Hstep Hcalls.
    destruct s as [th res pend calls err]; simpl in *.
    destruct ev, th; simpl in Hstep; try discriminate;
      try (injection Hstep as <-; simpl in Hcalls;
           try (destruct bf as [|e]; simpl in Hcalls; [|destruct (isinstance e Exception)]);
           done);
      destruct pend as [|p pend]; try discriminate; injection Hstep as <-;
      simpl in Hcalls; done.
  - intros Halive. destruct Hq as [[Hc [p Hp]] | (_ & _ & Hex)].
    + destruct s as [th res pend calls err]; simpl in *. subst.
      unfold rt_step, check; simpl.
      destruct th; simpl in *; try discriminate; eexists; split; try reflexivity; done.
    + unfold is_alive in Halive. by rewrite Hex in Halive.
  - apply callbacks_in_either_order.
Qed.

(** C9: when [blocking_function] returns [value], every call of
    [done_callback] is with [(True, value)]; when it raises an instance of
    [Exception], every call is with [(False, traceback)], the traceback as
    formatted; in both cases nothing reaches out of the worker thread, and
    the call is made: once the worker has run and exited, the next step of
    the main loop has called [done_callback], exactly once. *)
Theorem done_callback_arguments bf (evs : list rt_event) :
  let s := rt_run bf evs run_in_thread in
  let finished := rt_run bf (evs ++ [WorkerRuns; WorkerExits; MainLoopFires]) run_in_thread in
  (forall value, bf = Ok value ->
     (forall args, args ∈ done_calls s -> args = [PyBool true; PyVal value])
     /\ thread_error s = None
     /\ done_calls finished = [[PyBool true; PyVal value]])
  /\ (forall e, bf = Raise e -> isinstance e Exception = true ->
     (forall args, args ∈ done_calls s -> args = [PyBool false; PyStr (format_exc e)])
     /\ thread_error s = None
     /\ done_calls finished = [[PyBool false; PyStr (format_exc e)]]).
Proof.
  intros s finished.
  assert (Hs : (forall args, args ∈ done_calls s -> args = expected_result bf)
               /\ (expected_error bf = None -> thread_error s = None)).
  { pose proof (rt_reachable_inv bf evs) as [Hthr Hq]. fold s in Hthr, Hq. split.
    - intros args. destruct Hq as [[-> _] | (-> & _ & Hex)].
      + by intros ?%elem_of_nil.
      + intros ->%list_elem_of_singleton. rewrite Hex in Hthr. apply Hthr.
    - intros He. destruct (thread s); [apply Hthr | | ]; destruct Hthr as [_ ->]; done. }
  assert (Hf : done_calls finished = [expected_result bf]).
  { unfold finished. rewrite rt_run_app. fold s.
    pose proof (rt_reachable_inv bf evs) as Hinv. fold s in Hinv.
    assert (exists s1, rt_run bf [WorkerRuns; WorkerExits] s = s1
                       /\ rt_inv bf s1 /\ thread s1 = Exited) as (s1 & E1 & Hinv1 & Hex).
    { eexists; split; [reflexivity|]. split; [by apply rt_run_inv|].
      destruct s as [th res pend calls err]; simpl.
      destruct th; simpl; try done.
      destruct bf as [|e]; simpl; [done|]. by destruct (isinstance e Exception). }
    change [WorkerRuns; WorkerExits; MainLoopFires]
      with ([WorkerRuns; WorkerExits] ++ [MainLoopFires])%list.
    rewrite rt_run_app, E1.
    destruct Hinv1 as [Hthr Hq]. rewrite Hex in Hthr. destruct Hthr as [Hres _].
    destruct s1 as [th res pend calls err]; simpl in *. subst th.
    destruct Hq as [[-> [p ->]] | (-> & -> & _)]; simpl; by rewrite Hres. }
  destruct Hs as [Hargs Herr].
  split.
  - intros value ->. simpl in *. auto.
  - intros e -> He. simpl in *. rewrite He in *. auto.
Qed.

End WithResultType.

Lemma done_callback_once_after_thread_exit_witness :
  thread (rt_run (Ok 5) [WorkerRuns; MainLoopFires; WorkerExits; MainLoopFires]
            run_in_thread) = Exited
  /\ exists s',
       rt_step (Ok 5) MainLoopFires (rt_run (Ok 5) [WorkerRuns] run_in_thread) = Some s'
       /\ done_calls s' = [] /\ pending s' = [After 100].
Proof.
  split.
  - apply (done_callback_once_after_thread_exit (Ok 5)
             [WorkerRuns; MainLoopFires; WorkerExits; MainLoopFires]).
    vm_compute. discriminate.
  - apply (done_callback_once_after_thread_exit (Ok 5) [WorkerRuns]).
    vm_compute. reflexivity.
Defined.

Lemma done_callback_arguments_witness :
  done_calls (rt_run (Ok 5) ([MainLoopFires] ++ [WorkerRuns; WorkerExits; MainLoopFires])
                run_in_thread)
  = [[PyBool true; PyVal 5]]
  /\ done_calls (rt_run (V := nat) (Raise (Exn ValueError "bad" "Traceback"))
                   ([] ++ [WorkerRuns; WorkerExits; MainLoopFires]) run_in_thread)
     = [[PyBool false; PyStr "Traceback"]].
Proof.
  split.
  - apply (done_callback_arguments (Ok 5) [MainLoopFires]). reflexivity.
  - apply (proj2 (done_callback_arguments (V := nat)
                    (Raise (Exn ValueError "bad" "Traceback")) [])
             (Exn ValueError "bad" "Traceback")).
    + reflexivity.
    + vm_compute. reflexivity.
Defined.

End RunInThreadFacts.

Module DialogFacts.
Import Str Tk Common Dialog DialogInvariants OsFacts Examples.
Section WithEnv.
Context `{env : RunEnv}.

Lemma show_error_content (d : text_widget) :
  text_content (show_error d) = "Substitution error" /\ text_state (show_error d) = StateDisabled.
Proof. by destruct d. Qed.

Lemma show_value_content (value : string) (d : text_widget) :
  text_content (show_value value d) = value /\ text_state (show_value value d) = StateDisabled.
Proof.
  destruct d. unfold show_value; simpl. split; [|done]. apply OsFacts.append_nil_r.
Qed.

Lemma get_set_display (self : field) (d : text_widget) (a : CommandAsker) :
  _command_display (get_field self (set_display self d a)) = d.
Proof. by destruct self. Qed.

Lemma update_run_button_frame (a : CommandAsker) :
  let a' := fst (update_run_button a) in
  same_inputs a a' /\ command a' = command a /\ cwd a' = cwd a.
Proof.
  unfold update_run_button. destruct (command_and_cwd_are_valid a) as [valid|e]; simpl.
  - by destruct (valid && _).
  - done.
Qed.

Lemma same_inputs_get_command (a a' : CommandAsker) :
  same_inputs a a' -> get_command a' = get_command a.
Proof.
  intros (_ & Hs & Hc & Hw & Ht & _). unfold get_command, format_var_get.
  by rewrite Hs, Hc, Hw, Ht.
Qed.

Lemma catches_substitution_errors (e : exn) :
  catches substitution_errors e = true <->
  isinstance e ValueError = true \/ isinstance e KeyError = true
    \/ isinstance e IndexError = true.
Proof.
  unfold catches, substitution_errors. simpl. rewrite orb_false_r, !orb_true_iff. tauto.
Qed.

Lemma validate_caught (self : field) (gsv : CommandAsker -> result string)
    (callback : M CommandAsker unit) (a : CommandAsker) (e : exn) :
  gsv a = Raise e -> catches substitution_errors e = true ->
  validate self gsv callback a =
  callback (set_display self (show_error (_command_display (get_field self a))) a).
Proof. intros He Hc. unfold validate. by rewrite He, Hc. Qed.

Lemma validate_value (self : field) (gsv : CommandAsker -> result string)
    (callback : M CommandAsker unit) (a : CommandAsker) (value : string) :
  gsv a = Ok value ->
  validate self gsv callback a =
  callback (set_display self (show_value value (_command_display (get_field self a))) a).
Proof. intros Hv. unfold validate. by rewrite Hv. Qed.

Lemma update_run_button_display (self : field) (a : CommandAsker) :
  _command_display (get_field self (fst (update_run_button a)))
  = _command_display (get_field self a).
Proof.
  destruct (update_run_button_frame a) as (_ & Hc & Hw).
  destruct self; simpl; by rewrite ?Hc, ?Hw.
Qed.

(** The display of a field once its [validate] is over. *)
Lemma field_validate_display (self : field) (a : CommandAsker) :
  _command_display (get_field self (fst (field_validate self a))) =
  match get_substituted_value self a with
  | Ok value => show_value value (_command_display (get_field self a))
  | Raise e =>
      if catches substitution_errors e
      then show_error (_command_display (get_field self a))
      else _command_display (get_field self a)
  end.
Proof.
  unfold field_validate, validate.
  destruct (get_substituted_value self a) as [value|e].
  - by rewrite update_run_button_display, get_set_display.
  - destruct (catches substitution_errors e); [|done].
    by rewrite update_run_button_display, get_set_display.
Qed.

(** C2: when the substituted-value function raises ValueError, KeyError or
    IndexError, [validate] leaves exactly "Substitution error" in the display;
    when it returns a string, that string; in both cases the display is
    disabled and the validated callback is called next.  With the callbacks
    the dialog passes, the display reads the same once [validate] is over. *)
Theorem validate_shows_error_or_value (self : field)
    (_get_substituted_value : CommandAsker -> result string)
    (_validated_callback : M CommandAsker unit) (a : CommandAsker) :
  (forall e, _get_substituted_value a = Raise e ->
     isinstance e ValueError = true \/ isinstance e KeyError = true
       \/ isinstance e IndexError = true ->
     exists a1,
       validate self _get_substituted_value _validated_callback a = _validated_callback a1
       /\ displayed self a1 = "Substitution error"
       /\ display_state self a1 = StateDisabled)
  /\ (forall value, _get_substituted_value a = Ok value ->
     exists a1,
       validate self _get_substituted_value _validated_callback a = _validated_callback a1
       /\ displayed self a1 = value
       /\ display_state self a1 = StateDisabled)
  /\ (forall e, get_substituted_value self a = Raise e ->
     isinstance e ValueError = true \/ isinstance e KeyError = true
       \/ isinstance e IndexError = true ->
     displayed self (fst (field_validate self a)) = "Substitution error"
     /\ display_state self (fst (field_validate self a)) = StateDisabled)
  /\ (forall value, get_substituted_value self a = Ok value ->
     displayed self (fst (field_validate self a)) = value
     /\ display_state self (fst (field_validate self a)) = StateDisabled).
Proof.
  split; [|split; [|split]].
  - intros e He Hcls. apply catches_substitution_errors in Hcls.
    rewrite (validate_caught _ _ _ _ _ He Hcls).
    eexists. split; [reflexivity|]. unfold displayed, display_state.
    rewrite get_set_display. apply show_error_content.
  - intros value Hv. rewrite (validate_value _ _ _ _ _ Hv).
    eexists. split; [reflexivity|]. unfold displayed, display_state.
    rewrite get_set_display. apply show_value_content.
  - intros e He Hcls. apply catches_substitution_errors in Hcls.
    unfold displayed, display_state. rewrite field_validate_display, He, Hcls.
    apply show_error_content.
  - intros value Hv.
    unfold displayed, display_state. rewrite field_validate_display, Hv.
    apply show_value_content.
Qed.

(** *** What the methods leave alone *)

Lemma same_inputs_refl (a : CommandAsker) : same_inputs a a.
Proof. by repeat split. Qed.

Lemma same_inputs_trans (a b c : CommandAsker) :
  same_inputs a b -> same_inputs b c -> same_inputs a c.
Proof.
  unfold same_inputs. intros H1 H2. destruct_and!. repeat split; congruence.
Qed.

Lemma validate_frame (self : field) (gsv : CommandAsker -> result string) (a : CommandAsker) :
  let a' := fst (validate self gsv update_run_button a) in
  same_inputs a a'
  /\ _command_display (get_field (other self) a') = _command_display (get_field (other self) a).
Proof.
  assert (Hset : forall d,
    let a' := fst (update_run_button (set_display self d a)) in
    same_inputs a a'
    /\ _command_display (get_field (other self) a') = _command_display (get_field (other self) a)).
  { intros d a'. destruct (update_run_button_frame (set_display self d a)) as (Hs & Hc & Hw).
    fold a' in Hs, Hc, Hw. split.
    - eapply same_inputs_trans; [|exact Hs]. by destruct self; repeat split.
    - destruct self; simpl; by rewrite ?Hc, ?Hw. }
  unfold validate. destruct (gsv a) as [value|e]; [apply Hset|].
  destruct (catches substitution_errors e); [apply Hset|].
  split; [apply same_inputs_refl | done].
Qed.

Lemma field_validate_frame (self : field) (a : CommandAsker) :
  let a' := fst (field_validate self a) in
  same_inputs a a'
  /\ _command_display (get_field (other self) a') = _command_display (get_field (other self) a).
Proof. apply validate_frame. Qed.

Lemma format_var_set_eq (self : field) (s : string) (a : CommandAsker) :
  format_var_set self s a =
  (fst (field_validate self (set_entry self (entry_set_text s (entry (get_field self a))) a)),
   Ok tt).
Proof. reflexivity. Qed.

(** After [format_var.set(s)] the entry of that field holds [s]; the other
    entry and the other attributes are as before. *)
Lemma format_var_set_frame (self : field) (s : string) (a : CommandAsker) :
  let a' := fst (format_var_set self s a) in
  entry (get_field self a') = entry_set_text s (entry (get_field self a))
  /\ entry (get_field (other self) a') = entry (get_field (other self) a)
  /\ window a' = window a /\ _substitutions a' = _substitutions a
  /\ terminal_var a' = terminal_var a /\ _repeat_bindings a' = _repeat_bindings a
  /\ _repeat_var a' = _repeat_var a /\ run_clicked a' = run_clicked a
  /\ _suggestions a' = _suggestions a.
Proof.
  rewrite format_var_set_eq. simpl.
  destruct (field_validate_frame self
              (set_entry self (entry_set_text s (entry (get_field self a))) a)) as [Hs _].
  unfold same_inputs in Hs. destruct_and!.
  destruct self; simpl in *; repeat split; congruence.
Qed.

(** *** What the displays show *)

(** C6: when formatting succeeds, the command display shows after
    validation exactly what [format_command()] returns for the command built
    from the dialog, and the directory display exactly [str(format_cwd())];
    validation leaves that command as it is. *)
Theorem displays_show_formatted_command (a : CommandAsker) :
  (forall s, format_command (get_command a) = Ok s ->
     let a' := fst (field_validate CommandField a) in
     displayed CommandField a' = s
     /\ get_command a' = get_command a
     /\ format_command (get_command a') = Ok s)
  /\ (forall p, format_cwd (get_command a) = Ok p ->
     let a' := fst (field_validate CwdField a) in
     displayed CwdField a' = path_str p
     /\ get_command a' = get_command a
     /\ format_cwd (get_command a') = Ok p).
Proof.
  split.
  - intros s Hs a'.
    assert (Hc : get_command a' = get_command a).
    { apply same_inputs_get_command, field_validate_frame. }
    split; [|split; [done | by rewrite Hc]].
    unfold a', displayed. rewrite field_validate_display. simpl. rewrite Hs.
    apply show_value_content.
  - intros p Hp a'.
    assert (Hc : get_command a' = get_command a).
    { apply same_inputs_get_command, field_validate_frame. }
    split; [|split; [done | by rewrite Hc]].
    unfold a', displayed. rewrite field_validate_display. simpl. rewrite Hp.
    apply show_value_content.
Qed.

(** *** Properties the methods keep *)

Lemma keeps_bind {A B : Type} (P : CommandAsker -> Prop)
    (m : M CommandAsker A) (k : A -> M CommandAsker B) :
  keeps P m -> (forall x, keeps P (k x)) -> keeps P (m ≫= k).
Proof.
  intros Hm Hk a Pa. unfold mbind, M_bind. specialize (Hm a Pa).
  destruct (m a) as [a1 [x|e]]; simpl in *; [|done]. by apply Hk.
Qed.

Lemma keeps_mret {A : Type} (P : CommandAsker -> Prop) (x : A) : keeps P (mret x).
Proof. by intros a. Qed.

Lemma keeps_raise {A : Type} (P : CommandAsker -> Prop) (e : exn) :
  keeps P (raise (A := A) e).
Proof. by intros a. Qed.

Lemma keeps_call_wrapper (P : CommandAsker -> Prop) (m : M CommandAsker unit) :
  keeps P m -> keeps P (call_wrapper m).
Proof. intros Hm a. apply Hm. Qed.

Section Keeps.
Variable P : CommandAsker -> Prop.
Hypothesis P_stable : stable P.
Hypothesis P_update_run_button : keeps P update_run_button.
Hypothesis P_repeat_var_set : forall s, keeps P (repeat_var_set s).

Lemma keeps_set_display (self : field) (d : text_widget) (a : CommandAsker) :
  P a -> P (set_display self d a).
Proof. apply P_stable; by destruct self. Qed.

Lemma keeps_set_entry (self : field) (f : CommandAsker -> entry_widget) :
  keeps P (modify (fun a => set_entry self (f a) a)).
Proof. intros a. apply P_stable; by destruct self. Qed.

Lemma keeps_validate (self : field) (gsv : CommandAsker -> result string) :
  keeps P (validate self gsv update_run_button).
Proof.
  intros a Pa. unfold validate. destruct (gsv a) as [value|e].
  - by apply P_update_run_button, keeps_set_display.
  - destruct (catches substitution_errors e); [|done].
    by apply P_update_run_button, keeps_set_display.
Qed.

Lemma keeps_format_var_set (self : field) (s : string) : keeps P (format_var_set self s).
Proof.
  apply keeps_bind; [apply keeps_set_entry | intros _].
  apply keeps_call_wrapper, keeps_validate.
Qed.

Ltac keeps_step :=
  first [ apply keeps_format_var_set | apply keeps_set_entry | apply keeps_validate
        | apply keeps_mret | apply keeps_raise
        | (intros ?; by apply P_stable)
        | apply keeps_bind; [|intros ?] ].

Lemma keeps_select_command_autocompletion (item : Command) (prefix : string) :
  keeps P (_select_command_autocompletion item prefix).
Proof.
  unfold _select_command_autocompletion.
  apply keeps_bind; [destruct (startswith _ _); keeps_step | intros ?].
  repeat keeps_step.
Qed.

Lemma keeps_autocomplete_loop (items : list Command) (prefix : string) :
  keeps P (autocomplete_loop items prefix).
Proof.
  induction items as [|item items IH]; simpl; [apply keeps_mret|].
  destruct (startswith _ _); [|done].
  apply keeps_bind; [apply keeps_select_command_autocompletion | intros ?; apply keeps_mret].
Qed.

Lemma keeps_autocomplete (char : string) : keeps P (_autocomplete char).
Proof.
  intros a. unfold _autocomplete.
  destruct (_ || _); [done|].
  destruct (entry_selection _) as [[sel_first sel_last]|];
    [destruct (negb _); [done|]|]; apply keeps_autocomplete_loop.
Qed.

Lemma keeps_handle (ev : ui_event) : keeps P (handle ev).
Proof.
  destruct ev; simpl.
  - apply keeps_call_wrapper, keeps_bind; [apply keeps_autocomplete | intros ?; apply keeps_mret].
  - apply keeps_format_var_set.
  - intros a. by apply P_stable.
  - intros a. by apply P_stable.
  - apply P_repeat_var_set.
  - intros a Pa. destruct (run_button a); [|done]. simpl. revert Pa. by apply P_stable.
  - intros a. by apply P_stable.
Qed.

Lemma keeps_dialog_run (events : list ui_event) (a : CommandAsker) :
  P a -> P (dialog_run events a).
Proof.
  revert a. induction events as [|ev events IH]; intros a Pa; [done|].
  simpl. by apply IH, keeps_handle.
Qed.

Lemma keeps_init_fill (ctx : Context) : keeps P (init_fill ctx).
Proof.
  unfold init_fill. apply keeps_bind; [|intros ?; repeat keeps_step].
  destruct (get_command_to_repeat ctx);
    [apply keeps_select_command_autocompletion | apply keeps_format_var_set].
Qed.

Lemma keeps_init (ctx : Context) (a : CommandAsker) :
  __init__ ctx = Ok a ->
  exists repeat,
    list_getitem repeat_bindings (key_id ctx) = Ok repeat
    /\ (P (init_widgets ctx repeat) -> P a).
Proof.
  unfold __init__.
  destruct (list_getitem repeat_bindings (key_id ctx)) as [repeat|e]; [|done].
  pose proof (keeps_init_fill ctx (init_widgets ctx repeat)) as Hk.
  destruct (init_fill ctx (init_widgets ctx repeat)) as [a' [[]|e]]; [|done].
  intros [= <-]. eauto.
Qed.

End Keeps.

(** *** What only the constructor assigns *)

Lemma has_config_stable (subs : gmap string string) (bindings : list string) :
  stable (has_config subs bindings).
Proof. intros a a' Hs Hb _ _ [<- <-]. by split. Qed.

Lemma has_config_update_run_button (subs : gmap string string) (bindings : list string) :
  keeps (has_config subs bindings) update_run_button.
Proof.
  intros a [<- <-]. destruct (update_run_button_frame a) as [Hs _].
  unfold same_inputs in Hs. destruct_and!. by split.
Qed.

Lemma has_config_repeat_var_set (subs : gmap string string) (bindings : list string)
    (s : string) :
  keeps (has_config subs bindings) (repeat_var_set s).
Proof.
  apply keeps_bind; [by intros a | intros _].
  apply keeps_call_wrapper, has_config_update_run_button.
Qed.

Lemma dialog_run_config (events : list ui_event) (a : CommandAsker) :
  has_config (_substitutions a) (_repeat_bindings a) (dialog_run events a).
Proof.
  apply (keeps_dialog_run _ (has_config_stable _ _) (has_config_update_run_button _ _)
           (has_config_repeat_var_set _ _)).
  done.
Qed.

Lemma init_config (ctx : Context) (a : CommandAsker) :
  __init__ ctx = Ok a -> has_config (get_substitutions ctx) repeat_bindings a.
Proof.
  intros Hinit.
  destruct (keeps_init (has_config (get_substitutions ctx) repeat_bindings)
              (has_config_stable _ _) (has_config_update_run_button _ _) ctx a Hinit)
    as (repeat & _ & H).
  by apply H.
Qed.

(** *** An enabled Run button and the repeat key *)

Lemma button_inv_stable : stable button_inv.
Proof. intros a a' _ Hb Hr Hs Ha. unfold button_inv. by rewrite Hb, Hr, Hs. Qed.

Lemma update_run_button_result (a a' : CommandAsker) (r : result unit) :
  update_run_button a = (a', r) ->
  (exists e, r = Raise e /\ a' = a /\ command_and_cwd_are_valid a = Raise e)
  \/ (exists valid, r = Ok tt /\ command_and_cwd_are_valid a = Ok valid
       /\ a' = set_run_button (run_button a') a
       /\ (run_button a' = StateNormal <->
           valid = true /\ _repeat_var a ∈ _repeat_bindings a)).
Proof.
  unfold update_run_button. destruct (command_and_cwd_are_valid a) as [valid|e] eqn:E.
  - destruct (bool_decide _) eqn:Hin;
      [apply bool_decide_eq_true in Hin | apply bool_decide_eq_false in Hin];
      destruct valid; simpl; intros [= <- <-]; right; eexists;
      (split; [reflexivity|]); (split; [reflexivity|]); (split; [reflexivity|]);
      simpl; split; try done; by intros [? ?].
  - intros [= <- <-]. left. by exists e.
Qed.

Lemma button_inv_update_run_button : keeps button_inv update_run_button.
Proof.
  intros a Ha. destruct (update_run_button a) as [a' r] eqn:E. simpl.
  apply update_run_button_result in E as [(e & _ & -> & _) | (valid & _ & _ & Ha' & Hiff)];
    [done|].
  intros Hn. apply Hiff in Hn as [_ Hin]. by rewrite Ha'.
Qed.

Lemma formats_safely_valid (a : CommandAsker) :
  formats_safely -> exists valid, command_and_cwd_are_valid a = Ok valid.
Proof.
  intros Hsafe. destruct (Hsafe (get_command a)) as [Hcmd Hcwd].
  unfold command_and_cwd_are_valid.
  destruct (format_command (get_command a)) as [command|e];
    [|rewrite (Hcmd e eq_refl); eauto].
  destruct (format_cwd (get_command a)) as [cwd|e]; [eauto|].
  rewrite (Hcwd e eq_refl); eauto.
Qed.

Lemma button_inv_repeat_var_set (s : string) :
  formats_safely -> keeps button_inv (repeat_var_set s).
Proof.
  intros Hsafe a _. unfold repeat_var_set, mbind, M_bind, modify, call_wrapper. simpl.
  destruct (update_run_button (set_repeat_var s a)) as [a' r] eqn:E. simpl.
  destruct (formats_safely_valid (set_repeat_var s a) Hsafe) as [valid Hvalid].
  apply update_run_button_result in E
    as [(e & _ & _ & He) | (valid' & _ & _ & Ha' & Hiff)]; [congruence|].
  intros Hn. apply Hiff in Hn as [_ Hin]. by rewrite Ha'.
Qed.

Lemma list_getitem_elem {A : Type} (l : list A) (i : Z) (x : A) :
  list_getitem l i = Ok x -> x ∈ l.
Proof.
  unfold list_getitem. destruct (_ <? 0)%Z; [done|].
  destruct (l !! _) as [y|] eqn:E; [|done].
  intros [= <-]. by eapply list_elem_of_lookup_2.
Qed.

(** In a dialog [__init__] has made, and after any events, an enabled Run
    button goes with a repeat key that is a repeat binding, provided
    formatting raises only what the dialog catches. *)
Lemma dialog_run_button_inv (ctx : Context) (a0 : CommandAsker) (events : list ui_event) :
  formats_safely -> __init__ ctx = Ok a0 -> button_inv (dialog_run events a0).
Proof.
  intros Hsafe Hinit.
  apply (keeps_dialog_run _ button_inv_stable button_inv_update_run_button
           (fun s => button_inv_repeat_var_set s Hsafe)).
  destruct (keeps_init button_inv button_inv_stable button_inv_update_run_button ctx a0 Hinit)
    as (repeat & Hrepeat & H).
  apply H. intros _. simpl. by eapply list_getitem_elem.
Qed.

(** *** The Run button *)

Lemma truthy_true (s : string) : truthy s = true <-> s <> "".
Proof. destruct s; simpl; split; congruence. Qed.

Lemma list_index_Some `{EqDecision A} (x : A) (l : list A) :
  x ∈ l -> exists i, list_index x l = Some i /\ l !! i = Some x.
Proof.
  induction l as [|y l IH]; [by intros ?%elem_of_nil|].
  intros Hin. simpl. destruct (decide (y = x)) as [->|Hne]; [by exists 0|].
  apply elem_of_cons in Hin as [->|Hin]; [done|].
  destruct (IH Hin) as (i & -> & Hi). by exists (S i).
Qed.

(** [command_and_cwd_are_valid] returns [True] exactly when both fields
    format, the command is not blank and the directory is one that exists,
    given absolutely. *)
Lemma command_and_cwd_are_valid_true (a : CommandAsker) :
  command_and_cwd_are_valid a = Ok true <->
  exists command cwd,
    format_command (get_command a) = Ok command
    /\ format_cwd (get_command a) = Ok cwd
    /\ strip command <> ""
    /\ is_dir cwd = true /\ is_absolute cwd = true.
Proof.
  unfold command_and_cwd_are_valid. split.
  - destruct (format_command (get_command a)) as [command|e];
      [|by destruct (catches substitution_errors e)].
    destruct (format_cwd (get_command a)) as [cwd|e];
      [|by destruct (catches substitution_errors e)].
    intros [= H]. apply andb_true_iff in H as [H Habs].
    apply andb_true_iff in H as [Hstrip Hdir].
    exists command, cwd. by rewrite <- truthy_true.
  - intros (command & cwd & -> & -> & Hstrip & -> & ->).
    apply truthy_true in Hstrip. by rewrite Hstrip.
Qed.

Lemma bind_ok {A B : Type} (m : M CommandAsker A) (k : A -> M CommandAsker B)
    (a a' : CommandAsker) (y : B) :
  (m ≫= k) a = (a', Ok y) ->
  exists a1 x, m a = (a1, Ok x) /\ k x a1 = (a', Ok y).
Proof.
  unfold mbind, M_bind. destruct (m a) as [a1 [x|e]]; [eauto | done].
Qed.

(** *** The Run button between events *)

Lemma valid_get_command (a a' : CommandAsker) :
  get_command a' = get_command a ->
  command_and_cwd_are_valid a' = command_and_cwd_are_valid a.
Proof. intros H. unfold command_and_cwd_are_valid. by rewrite H. Qed.

Lemma valid_terminal (t : bool) (a : CommandAsker) :
  terminal_independent ->
  command_and_cwd_are_valid (set_terminal_var t a) = command_and_cwd_are_valid a.
Proof.
  intros Hterm. unfold command_and_cwd_are_valid, get_command. simpl.
  destruct (Hterm (format_var_get (command a)) (format_var_get (cwd a)) t (terminal_var a)
              (_substitutions a)) as [-> ->].
  done.
Qed.

Lemma up_to_date_frame (a a' : CommandAsker) :
  command_and_cwd_are_valid a' = command_and_cwd_are_valid a ->
  _repeat_var a' = _repeat_var a -> _repeat_bindings a' = _repeat_bindings a ->
  run_button a' = run_button a ->
  run_button_up_to_date a -> run_button_up_to_date a'.
Proof. unfold run_button_up_to_date. by intros -> -> -> ->. Qed.

Lemma up_to_date_update_run_button (a : CommandAsker) :
  formats_safely -> run_button_up_to_date (fst (update_run_button a)).
Proof.
  intros Hsafe. destruct (formats_safely_valid a Hsafe) as [valid Hvalid].
  destruct (update_run_button_frame a) as [Hs _].
  pose proof (valid_get_command _ _ (same_inputs_get_command _ _ Hs)) as Hv.
  destruct Hs as (_ & _ & _ & _ & _ & Hb & Hr & _).
  destruct (update_run_button a) as [a' r] eqn:E. cbn [fst] in *.
  apply update_run_button_result in E
    as [(e & _ & _ & He) | (valid' & _ & Hv' & _ & Hiff)]; [congruence|].
  unfold run_button_up_to_date. rewrite Hiff, Hv, Hv', Hb, Hr.
  split; intros [H1 H2]; split; congruence.
Qed.

Lemma up_to_date_field_validate (self : field) (a : CommandAsker) :
  formats_safely -> run_button_up_to_date (fst (field_validate self a)).
Proof.
  intros Hsafe. unfold field_validate, validate.
  destruct (get_substituted_value self a) as [value|e] eqn:G;
    [by apply up_to_date_update_run_button|].
  assert (catches substitution_errors e = true) as ->.
  { destruct (Hsafe (get_command a)) as [Hc Hw]. destruct self; simpl in G; [by apply Hc|].
    destruct (format_cwd (get_command a)) eqn:F; [done|]. injection G as <-. by apply Hw. }
  by apply up_to_date_update_run_button.
Qed.

Lemma up_to_date_select_command_autocompletion (item : Command) (prefix : string)
    (a : CommandAsker) :
  formats_safely -> terminal_independent ->
  run_button_up_to_date a ->
  run_button_up_to_date (fst (_select_command_autocompletion item prefix a)).
Proof.
  intros Hsafe Hterm Ha. unfold _select_command_autocompletion.
  destruct (startswith (command_format item) prefix); [|done].
  unfold mbind, M_bind, mret, M_ret. rewrite !format_var_set_eq. unfold modify.
  set (a1 := fst (field_validate CommandField _)).
  cbn [get_field].
  set (e3 := selection_range _ _ _).
  set (a3 := set_entry CommandField e3 _).
  rewrite format_var_set_eq.
  set (a4 := fst (field_validate CwdField _)).
  cbn [fst].
  apply (up_to_date_frame a4); [by apply valid_terminal | done | done | done |].
  by apply up_to_date_field_validate.
Qed.

Lemma up_to_date_autocomplete (char : string) (a : CommandAsker) :
  formats_safely -> terminal_independent ->
  run_button_up_to_date a -> run_button_up_to_date (fst (_autocomplete char a)).
Proof.
  intros Hsafe Hterm Ha.
  assert (Hloop : forall items prefix,
            run_button_up_to_date (fst (autocomplete_loop items prefix a))).
  { intros items prefix. induction items as [|item items IH]; simpl; [done|].
    destruct (startswith (command_format item) prefix); [|apply IH].
    pose proof (up_to_date_select_command_autocompletion item prefix a Hsafe Hterm Ha) as H.
    unfold mbind, M_bind.
    by destruct (_select_command_autocompletion item prefix a) as [a' [[]|e]]. }
  unfold _autocomplete.
  destruct (_ || _); [done|].
  destruct (entry_selection _) as [[sel_first sel_last]|];
    [destruct (negb _); [done|]|]; apply Hloop.
Qed.

Lemma up_to_date_handle (ev : ui_event) (a : CommandAsker) :
  formats_safely -> terminal_independent ->
  run_button_up_to_date a -> run_button_up_to_date (fst (handle ev a)).
Proof.
  intros Hsafe Hterm Ha. destruct ev; cbn [handle].
  - pose proof (up_to_date_autocomplete char a Hsafe Hterm Ha) as H.
    unfold call_wrapper, mbind, M_bind. cbn [fst].
    by destruct (_autocomplete char a) as [a' [x|e]].
  - rewrite format_var_set_eq. by apply up_to_date_field_validate.
  - apply (up_to_date_frame a); [by apply valid_terminal | done..].
  - apply (up_to_date_frame a); [by apply valid_terminal | done..].
  - by apply up_to_date_update_run_button.
  - destruct (run_button a) eqn:Hb; [|done].
    by apply (up_to_date_frame a).
  - by apply (up_to_date_frame a).
Qed.

Lemma up_to_date_init (ctx : Context) (a : CommandAsker) :
  formats_safely -> __init__ ctx = Ok a -> run_button_up_to_date a.
Proof.
  intros Hsafe. unfold __init__.
  destruct (list_getitem repeat_bindings (key_id ctx)) as [repeat|e]; [|done].
  destruct (init_fill ctx (init_widgets ctx repeat)) as [a' [[]|e]] eqn:E; [|done].
  intros [= <-]. unfold init_fill in E.
  apply bind_ok in E as (a1 & [] & _ & E).
  apply bind_ok in E as (a2 & [] & _ & E).
  apply bind_ok in E as (a3 & [] & _ & E).
  apply bind_ok in E as (a4 & [] & _ & E).
  pose proof (up_to_date_field_validate CwdField a4 Hsafe) as H. by rewrite E in H.
Qed.

Lemma up_to_date_dialog_run (ctx : Context) (a0 : CommandAsker) (events : list ui_event) :
  formats_safely -> terminal_independent -> __init__ ctx = Ok a0 ->
  run_button_up_to_date (dialog_run events a0).
Proof.
  intros Hsafe Hterm Hinit. pose proof (up_to_date_init ctx a0 Hsafe Hinit) as Ha.
  clear Hinit. revert a0 Ha. induction events as [|ev events IH]; intros a Ha; [done|].
  simpl. by apply IH, up_to_date_handle.
Qed.


(** *** Autocompletion *)

(** What [_select_command_autocompletion] leaves when its assertion holds. *)
Lemma select_command_autocompletion_spec (item : Command) (prefix : string)
    (a : CommandAsker) :
  startswith (command_format item) prefix = true ->
  exists a',
    _select_command_autocompletion item prefix a = (a', Ok tt)
    /\ entry_text (entry (command a')) = command_format item
    /\ entry_insert (entry (command a')) = String.length prefix
    /\ selected_text (entry (command a'))
       = str_drop (String.length prefix) (command_format item)
    /\ entry_text (entry (cwd a')) = cwd_format item
    /\ terminal_var a' = external_terminal item
    /\ window a' = window a /\ _substitutions a' = _substitutions a
    /\ _repeat_bindings a' = _repeat_bindings a /\ _repeat_var a' = _repeat_var a
    /\ run_clicked a' = run_clicked a /\ _suggestions a' = _suggestions a.
Proof.
  intros Hpre. unfold _select_command_autocompletion. rewrite Hpre.
  pose proof (startswith_length _ _ Hpre) as Hlen.
  unfold mbind, M_bind, mret, M_ret. rewrite !format_var_set_eq. unfold modify.
  set (a1 := fst (field_validate CommandField _)).
  cbn [get_field].
  set (e3 := selection_range _ _ _).
  set (a3 := set_entry CommandField e3 _).
  rewrite format_var_set_eq.
  set (a4 := fst (field_validate CwdField _)).
  eexists. split; [reflexivity|].
  destruct (field_validate_frame CommandField
    (set_entry CommandField
       (entry_set_text (command_format item) (entry (get_field CommandField a))) a))
    as [H1 _]. fold a1 in H1.
  destruct (field_validate_frame CwdField
    (set_entry CwdField
       (entry_set_text (cwd_format item) (entry (get_field CwdField a3))) a3))
    as [H4 _]. fold a4 in H4.
  unfold same_inputs in H1, H4. simpl in H1, H4.
  destruct H1 as (Hw1 & Hs1 & Hc1 & Hd1 & Ht1 & Hb1 & Hr1 & Hk1 & Hg1).
  destruct H4 as (Hw4 & Hs4 & Hc4 & Hd4 & Ht4 & Hb4 & Hr4 & Hk4 & Hg4).
  assert (He3 : e3 = EntryWidget (command_format item) (String.length prefix)
                      (if (String.length prefix <? String.length (command_format item))%nat
                       then Some (String.length prefix, String.length (command_format item))
                       else None)).
  { unfold e3, selection_range, icursor, entry_index_end. simpl. rewrite Hc1. simpl.
    rewrite !Nat.min_id, !(Nat.min_l _ _ Hlen). done. }
  simpl. rewrite Hc4, Hd4, He3. simpl.
  repeat split; try congruence.
  unfold selected_text. simpl.
  destruct (String.length prefix <? String.length (command_format item))%nat eqn:E.
  - apply str_take_all. rewrite str_drop_length. lia.
  - apply Nat.ltb_ge in E. symmetry. by apply str_drop_all.
Qed.

Lemma autocomplete_loop_none (items : list Command) (prefix : string) (a : CommandAsker) :
  (forall item, item ∈ items -> startswith (command_format item) prefix = false) ->
  autocomplete_loop items prefix a = (a, Ok None).
Proof.
  induction items as [|item items IH]; intros Hall; simpl; [done|].
  rewrite (Hall item) by apply list_elem_of_here.
  apply IH. intros x Hx. apply Hall. by apply list_elem_of_further.
Qed.

Lemma autocomplete_loop_first (before after : list Command) (item : Command)
    (prefix : string) (a : CommandAsker) :
  (forall x, x ∈ before -> startswith (command_format x) prefix = false) ->
  startswith (command_format item) prefix = true ->
  autocomplete_loop (before ++ item :: after) prefix a =
  (fst (_select_command_autocompletion item prefix a), Ok (Some "break")).
Proof.
  intros Hbefore Hitem. induction before as [|x before IH]; simpl.
  - rewrite Hitem. unfold mbind, M_bind.
    destruct (select_command_autocompletion_spec item prefix a Hitem) as (a' & -> & _).
    done.
  - rewrite (Hbefore x) by apply list_elem_of_here.
    apply IH. intros y Hy. apply Hbefore. by apply list_elem_of_further.
Qed.

Lemma autocomplete_acts_loop (char : string) (a : CommandAsker) :
  autocomplete_acts char a ->
  _autocomplete char a = autocomplete_loop (_suggestions a) (text_to_keep a +:+ char) a.
Proof.
  intros (Hlen & Hprint & Hsel). unfold _autocomplete, text_to_keep.
  rewrite Hlen, Hprint. simpl.
  destruct (entry_selection (entry (command a))) as [[sel_first sel_last]|]; [|done].
  rewrite (Hsel _ _ eq_refl), Nat.eqb_refl. done.
Qed.

Lemma autocomplete_not_acts (char : string) (a : CommandAsker) :
  ~ autocomplete_acts char a -> _autocomplete char a = (a, Ok None).
Proof.
  intros Hnot. unfold _autocomplete.
  destruct (String.length char =? 1)%nat eqn:Hlen; [|done].
  destruct (isprintable char) eqn:Hprint; [|done]. simpl.
  destruct (entry_selection (entry (command a))) as [[sel_first sel_last]|] eqn:Hsel.
  - destruct (sel_last =? entry_index_end (entry (command a)))%nat eqn:Hend; [|done].
    exfalso. apply Hnot. apply Nat.eqb_eq in Hlen, Hend.
    repeat split; [done..|]. intros ? ? Heq. rewrite Hsel in Heq.
    by injection Heq as <- <-.
  - exfalso. apply Hnot. apply Nat.eqb_eq in Hlen. repeat split; [done..|].
    intros ? ? Heq. by rewrite Hsel in Heq.
Qed.

(** C10: [_autocomplete] acts only on a single printable character typed
    while the selection, if any, reaches the end of the entry.  It then takes
    the first suggestion whose [command_format] starts with the kept text
    plus the character: the entry holds that [command_format], the cursor is
    at the end of the prefix, the rest is selected, and [cwd_format] and
    [external_terminal] of the suggestion are in the dialog.  Otherwise the
    dialog is unchanged and [None] is returned, which leaves the keystroke to
    the other bindings. *)
Theorem autocomplete_selects_first_suggestion (char : string) (a : CommandAsker) :
  let prefix := text_to_keep a +:+ char in
  (~ autocomplete_acts char a -> _autocomplete char a = (a, Ok None))
  /\ (autocomplete_acts char a ->
       (forall item, item ∈ _suggestions a ->
          startswith (command_format item) prefix = false) ->
       _autocomplete char a = (a, Ok None))
  /\ (autocomplete_acts char a ->
       forall before item after,
         _suggestions a = (before ++ item :: after)%list ->
         (forall x, x ∈ before -> startswith (command_format x) prefix = false) ->
         startswith (command_format item) prefix = true ->
         exists a',
           _autocomplete char a = (a', Ok (Some "break"))
           /\ entry_get (entry (command a')) = command_format item
           /\ startswith (entry_get (entry (command a'))) prefix = true
           /\ entry_insert (entry (command a')) = String.length prefix
           /\ selected_text (entry (command a'))
              = str_drop (String.length prefix) (command_format item)
           /\ format_var_get (cwd a') = cwd_format item
           /\ terminal_var a' = external_terminal item).
Proof.
  intros prefix. split; [|split].
  - apply autocomplete_not_acts.
  - intros Hacts Hnone. rewrite autocomplete_acts_loop by done.
    by apply autocomplete_loop_none.
  - intros Hacts before item after Hsugg Hbefore Hitem.
    rewrite autocomplete_acts_loop, Hsugg by done. fold prefix.
    rewrite autocomplete_loop_first by done.
    destruct (select_command_autocompletion_spec item prefix a Hitem)
      as (a' & -> & Htext & Hins & Hsel & Hcwd & Hterm & _).
    exists a'. simpl. unfold entry_get, format_var_get. rewrite Htext.
    repeat split; done.
Qed.

(** *** The command of the dialog *)

(** C5: [get_command] returns the command made of the text of the command
    entry, the text of the directory entry, the radio-button choice and the
    substitutions of the dialog: a text set in either field or a choice made
    is what the next [get_command] returns, and the substitutions are those
    of the context the dialog was made for, whatever happened since. *)
Theorem get_command_aggregates_dialog_state (a : CommandAsker) :
  get_command a = MkCommand (entry_get (entry (command a))) (entry_get (entry (cwd a)))
                    (terminal_var a) (_substitutions a)
  /\ (forall s, command_format (get_command (fst (format_var_set CommandField s a))) = s)
  /\ (forall s, cwd_format (get_command (fst (format_var_set CwdField s a))) = s)
  /\ (forall b, external_terminal (get_command (set_terminal_var b a)) = b)
  /\ (forall ctx a0 events,
        __init__ ctx = Ok a0 -> a = dialog_run events a0 ->
        substitutions (get_command a) = get_substitutions ctx).
Proof.
  split; [done|]. split; [|split; [|split]].
  - intros s. pose proof (format_var_set_frame CommandField s a) as [H _].
    simpl in *. unfold format_var_get. by rewrite H.
  - intros s. pose proof (format_var_set_frame CwdField s a) as [H _].
    simpl in *. unfold format_var_get. by rewrite H.
  - done.
  - intros ctx a0 events Hinit ->. simpl.
    destruct (dialog_run_config events a0) as [-> _].
    by apply init_config in Hinit as [-> _].
Qed.

(** *** One dialog at a time *)

Lemma dialogs_open_zero (w : World) :
  winfo_exists ".run_command_asker" w = false -> dialogs_open w = 0.
Proof.
  unfold winfo_exists, dialogs_open. rewrite bool_decide_eq_false.
  induction (windows w) as [|name ws IH]; intros Hnot; [done|].
  rewrite filter_cons. destruct (decide (name = ".run_command_asker")) as [->|Hne].
  - exfalso. apply Hnot, list_elem_of_here.
  - apply IH. intros Hin. apply Hnot. by apply list_elem_of_further.
Qed.

Lemma dialogs_open_destroyed (w : World) : dialogs_open (destroy_asker_window w) = 0.
Proof.
  apply dialogs_open_zero. unfold winfo_exists, destroy_asker_window. simpl.
  apply bool_decide_eq_false. intros Hin%list_elem_of_filter. by destruct Hin.
Qed.

Lemma ask_command_enter_existing (ctx : Context) (w : World) :
  winfo_exists ".run_command_asker" w = true ->
  ask_command_enter ctx w = (MkWorld (windows w) (Some ".run_command_asker"), Ok None).
Proof. intros H. unfold ask_command_enter. by rewrite H. Qed.

Lemma world_step_dialogs_open (ev : world_event) (w : World) :
  dialogs_open w <= 1 -> dialogs_open (world_step ev w) <= 1.
Proof.
  intros Hle. destruct ev as [ctx|]; simpl.
  - unfold ask_command_enter.
    destruct (winfo_exists ".run_command_asker" w) eqn:E; [done|].
    apply dialogs_open_zero in E.
    assert (dialogs_open (MkWorld (".run_command_asker" :: windows w) (focus w)) = 1) as Hone.
    { unfold dialogs_open in *. cbn [windows].
      rewrite filter_cons_True by done. simpl. by rewrite E. }
    destruct (__init__ ctx); simpl; by rewrite Hone.
  - rewrite dialogs_open_destroyed. lia.
Qed.

(** C7: a call of [ask_command] made while a window named
    [run_command_asker] exists gives that window the focus and returns
    [None]; it makes no dialog and no window.  So, however calls of
    [ask_command] and closings of the dialog follow one another, there is
    at most one run-command dialog at any time. *)
Theorem ask_command_keeps_one_dialog (ctx : Context) (events : list ui_event) (w : World) :
  (winfo_exists ".run_command_asker" w = true ->
     ask_command ctx events w
     = Some (MkWorld (windows w) (Some ".run_command_asker"), Ok None)
     /\ ask_command_enter ctx w
        = (MkWorld (windows w) (Some ".run_command_asker"), Ok None))
  /\ (forall evs, dialogs_open w <= 1 -> dialogs_open (world_run evs w) <= 1).
Proof.
  split.
  - intros H. unfold ask_command. by rewrite ask_command_enter_existing.
  - intros evs. revert w. induction evs as [|ev evs IH]; intros w Hw; [done|].
    simpl. by apply IH, world_step_dialogs_open.
Qed.

End WithEnv.

(** *** Formatting *)


(** *** The formatting of the specification *)

Lemma lookup_field_errors (subs : gmap string string) (name : string) (e : exn) :
  lookup_field subs name = Raise e -> catches substitution_errors e = true.
Proof.
  unfold lookup_field. destruct (all_digits name); [by intros [= <-]|].
  destruct (subs !! name); [done | by intros [= <-]].
Qed.

Lemma str_format_errors_tail (subs : gmap string string) (template : string) :
  (forall field e, str_format subs field template = Raise e ->
     catches substitution_errors e = true)
  /\ (forall c field e, str_format subs field (String c template) = Raise e ->
     catches substitution_errors e = true).
Proof.
  induction template as [|c' rest' [IH1 IH2]].
  - split.
    + intros [name|] e; simpl; [by intros [= <-] | done].
    + intros c [name|] e; simpl.
      * destruct (Ascii.eqb c "}").
        -- destruct (lookup_field subs name) eqn:El; [done|].
           intros [= <-]. by eapply lookup_field_errors.
        -- destruct (Ascii.eqb c "{"); by intros [= <-].
      * destruct (Ascii.eqb c "{"); [by intros [= <-]|].
        destruct (Ascii.eqb c "}"); [by intros [= <-] | done].
  - split; [apply IH2|].
    intros c field e. remember (String c' rest') as t eqn:Ht. simpl.
    destruct field as [name|].
    + destruct (Ascii.eqb c "}").
      * destruct (lookup_field subs name) eqn:El.
        -- destruct (str_format subs None t) eqn:Er; [done|].
           intros [= <-]. subst t. by eapply IH2.
        -- intros [= <-]. by eapply lookup_field_errors.
      * destruct (Ascii.eqb c "{"); [by intros [= <-] | subst t; apply IH2].
    + destruct (Ascii.eqb c "{").
      * rewrite Ht at 1. cbv beta match.
        destruct (Ascii.eqb c' "{"); [|subst t; apply IH2].
        destruct (str_format subs None rest') eqn:Er; [done|].
        intros [= <-]. by eapply IH1.
      * destruct (Ascii.eqb c "}").
        -- rewrite Ht. cbv beta match.
           destruct (Ascii.eqb c' "}"); [|by intros [= <-]].
           destruct (str_format subs None rest') eqn:Er; [done|].
           intros [= <-]. by eapply IH1.
        -- destruct (str_format subs None t) eqn:Er; [done|].
           intros [= <-]. subst t. by eapply IH2.
Qed.

(** The formatting of the specification raises only ValueError, KeyError and
    IndexError. *)
Lemma spec_env_formats_safely (dirs : gset string) : formats_safely (env := spec_env dirs).
Proof.
  intros c. split; intros e; apply str_format_errors_tail.
Qed.

(** *** The properties on a dialog *)

Lemma validate_shows_error_or_value_witness :
  displayed CommandField (fst (field_validate (env := example_env) CommandField
                                 example_asker_unknown)) = "Substitution error"
  /\ displayed CommandField (fst (field_validate (env := example_env) CommandField
                                    example_asker)) = "pytest".
Proof.
  split.
  - apply (validate_shows_error_or_value (env := example_env) CommandField
             (get_substituted_value (env := example_env) CommandField)
             (update_run_button (env := example_env)) example_asker_unknown
           ) with (e := Exn KeyError "nothing" "").
    + vm_compute. reflexivity.
    + right. left. vm_compute. reflexivity.
  - apply (validate_shows_error_or_value (env := example_env) CommandField
             (get_substituted_value (env := example_env) CommandField)
             (update_run_button (env := example_env)) example_asker).
    vm_compute. reflexivity.
Defined.


Lemma get_command_aggregates_dialog_state_witness :
  exists a0,
    __init__ (env := example_env) example_ctx = Ok a0
    /\ substitutions (get_command (dialog_run (env := example_env)
                                     [Edited CommandField "ls"; AltE] a0))
       = example_substitutions.
Proof.
  destruct (__init__ (env := example_env) example_ctx) as [a0|e] eqn:Hinit;
    [|vm_compute in Hinit; discriminate].
  exists a0. split; [reflexivity|].
  apply (get_command_aggregates_dialog_state (env := example_env)
           (dialog_run (env := example_env) [Edited CommandField "ls"; AltE] a0)
        ) with (ctx := example_ctx) (a0 := a0) (events := [Edited CommandField "ls"; AltE]).
  - exact Hinit.
  - reflexivity.
Defined.

Lemma displays_show_formatted_command_witness :
  displayed CommandField (fst (field_validate (env := example_env) CommandField example_asker))
  = "pytest"
  /\ displayed CwdField (fst (field_validate (env := example_env) CwdField example_asker))
     = "/home/me".
Proof.
  split.
  - apply (displays_show_formatted_command (env := example_env) example_asker).
    vm_compute. reflexivity.
  - apply (displays_show_formatted_command (env := example_env) example_asker
           ) with (p := "/home/me").
    vm_compute. reflexivity.
Defined.

Lemma ask_command_keeps_one_dialog_witness :
  ask_command (env := example_env) example_ctx [RunInvoked] example_world
  = Some (MkWorld [".run_command_asker"; "."] (Some ".run_command_asker"), Ok None)
  /\ dialogs_open (world_run (env := example_env)
                     [AskCommand (env := example_env) example_ctx; DialogClosed;
                      AskCommand (env := example_env) example_ctx; AskCommand (env := example_env) example_ctx]
                     example_world) <= 1.
Proof.
  split.
  - apply (ask_command_keeps_one_dialog (env := example_env) example_ctx
             [RunInvoked] example_world).
    vm_compute. reflexivity.
  - apply (ask_command_keeps_one_dialog (env := example_env) example_ctx
             [] example_world).
    vm_compute. lia.
Defined.



Lemma autocomplete_selects_first_suggestion_witness :
  exists a',
    _autocomplete (env := example_env) "y" example_asker = (a', Ok (Some "break"))
    /\ entry_get (entry (command a')) = "python3 {file_name}"
    /\ startswith (entry_get (entry (command a'))) "py" = true
    /\ entry_insert (entry (command a')) = 2
    /\ selected_text (entry (command a')) = "thon3 {file_name}"
    /\ format_var_get (cwd a') = "{folder_path}"
    /\ terminal_var a' = true.
Proof.
  apply (autocomplete_selects_first_suggestion (env := example_env) "y" example_asker
         ) with (before := [MkCommand "make" "{folder_path}" false example_substitutions])
                (item := MkCommand "python3 {file_name}" "{folder_path}" true
                           example_substitutions)
                (after := [MkCommand "pytest" "{folder_path}" false example_substitutions]).
  - split; [reflexivity|]. split; [reflexivity|].
    intros sel_first sel_last H. vm_compute in H. injection H as <- <-. reflexivity.
  - reflexivity.
  - intros x Hx. apply list_elem_of_singleton in Hx as ->. reflexivity.
  - reflexivity.
Defined.

End DialogFacts.

(** * Further properties of [utils.py] *)

Module MoreBackupFacts.
Import Str Os Utils OsFacts BackupFacts Examples MoreExamples.

Lemma find_backup_name_first (fuel : nat) (fs : FS) (name ext name' : string) :
  find_backup_name fuel fs name ext = Some name' ->
  exists k, k < fuel /\ name' = nth_name k name
            /\ forall j, j < k -> is_Some (fs !! (nth_name j name +:+ ext)).
Proof.
  revert name. induction fuel as [|fuel IH]; intros name; simpl; [done|].
  destruct (exists_ fs (name +:+ ext)) eqn:E.
  - intros H. destruct (IH _ H) as (k & Hk & -> & Hall).
    exists (S k). split; [lia|]. split; [done|].
    intros [|j] Hj; simpl; [by apply exists_true | apply Hall; lia].
  - intros [= <-]. exists 0. split; [lia|]. split; [done|]. intros j Hj. lia.
Qed.

(** The backup path of a file that exists is the first name that is free in
    the sequence [name-backup.ext], [name-backup-backup.ext], ...: it is
    never the path itself, every earlier name of the sequence is taken, and
    the extension is kept. *)
Theorem backuppath_first_free_name (fs : FS) (path : string) :
  is_Some (fs !! path) ->
  exists k,
    0 < k /\ k <= size fs
    /\ backuppath fs path = Some (nth_name k (fst (splitext path)) +:+ snd (splitext path))
    /\ fs !! (nth_name k (fst (splitext path)) +:+ snd (splitext path)) = None
    /\ forall j, j < k ->
         is_Some (fs !! (nth_name j (fst (splitext path)) +:+ snd (splitext path))).
Proof.
  intros Hpath. unfold backuppath.
  destruct (splitext path) as [name ext] eqn:Hsplit. cbn [fst snd].
  destruct (find_backup_name_total fs name ext) as [name' E]. rewrite E.
  pose proof (find_backup_name_fresh _ _ _ _ _ E) as Hfresh.
  destruct (find_backup_name_first _ _ _ _ _ E) as (k & Hk & -> & Hall).
  exists k. repeat split; [|lia|done..].
  destruct k as [|k]; [|lia]. simpl in Hfresh.
  rewrite (splitext_join _ _ _ Hsplit) in Hfresh. rewrite Hfresh in Hpath.
  by destruct Hpath.
Qed.

Lemma backuppath_first_free_name_witness :
  exists k,
    0 < k /\ k <= size fs_example
    /\ backuppath fs_example "a.txt"
       = Some (nth_name k (fst (splitext "a.txt")) +:+ snd (splitext "a.txt"))
    /\ fs_example !! (nth_name k (fst (splitext "a.txt")) +:+ snd (splitext "a.txt")) = None
    /\ forall j, j < k ->
         is_Some (fs_example !! (nth_name j (fst (splitext "a.txt")) +:+ snd (splitext "a.txt"))).
Proof. apply (backuppath_first_free_name fs_example "a.txt"). vm_compute. eauto. Defined.

(** When [open] and the body of the [with] block end without an exception,
    [backup_open] removes the backup copy and leaves the file as the body
    wrote it: nothing remains under the backup name.  Had the body removed
    the backup copy itself, [os.remove] fails and the statement ends with its
    FileNotFoundError although the body succeeded. *)
Theorem backup_open_success_removes_backup
    (fs : FS) (path : string) (content : list Byte.byte)
    (fault : option exn) (mode : open_mode) (body : FS -> FS * result unit) :
  fs !! path = Some content ->
  exists backup,
    backuppath fs path = Some backup /\
    forall fs2 : FS,
      protected_block fault mode path body (<[backup := content]> fs) = (fs2, Ok tt) ->
      (is_Some (fs2 !! backup) ->
       exists fs',
         backup_open fault mode path body fs = Some (fs', Ok tt)
         /\ fs' !! backup = None
         /\ forall p, p <> backup -> fs' !! p = fs2 !! p)
      /\ (fs2 !! backup = None ->
          backup_open fault mode path body fs
          = Some (fs2, Raise (Exn FileNotFoundError backup ""))).
Proof.
  intros Hpath.
  destruct (backuppath_total fs path) as (backup & Hb & Hfresh).
  exists backup. split; [done|]. intros fs2 Hblock.
  unfold backup_open.
  assert (exists_ fs path = true) as -> by (apply exists_true; eauto).
  rewrite Hb. unfold copy. rewrite Hpath, Hblock. unfold remove. split.
  - intros [c Hc]. rewrite Hc. eexists. split; [done|]. split.
    + apply lookup_delete_eq.
    + intros p Hp. by rewrite lookup_delete_ne.
  - intros ->. done.
Qed.

Lemma backup_open_success_removes_backup_witness :
  exists fs',
    backup_open None ModeWrite "a.txt" writing_body fs_example = Some (fs', Ok tt)
    /\ fs' !! "a-backup-backup.txt" = None
    /\ forall p, p <> "a-backup-backup.txt" -> fs' !! p = fs_written !! p.
Proof.
  destruct (backup_open_success_removes_backup fs_example "a.txt" [Byte.x01] None ModeWrite
              writing_body) as (backup & Hb & H).
  - reflexivity.
  - vm_compute in Hb. injection Hb as <-.
    apply (H fs_written).
    + vm_compute. reflexivity.
    + vm_compute. eauto.
Defined.

End MoreBackupFacts.

Module MoreRunInThreadFacts.
Import Utils RunInThreadFacts.

Section WithResultType.
Context {V : Type}.
Implicit Types (bf : result V) (s : rt_state V).

Lemma rt_finished_calls bf (evs : list rt_event) :
  done_calls (rt_run bf (evs ++ [WorkerRuns; WorkerExits; MainLoopFires]) run_in_thread)
  = [expected_result bf].
Proof.
  rewrite rt_run_app.
  pose proof (rt_reachable_inv bf evs) as Hinv.
  set (s := rt_run bf evs run_in_thread) in *.
  assert (exists s1, rt_run bf [WorkerRuns; WorkerExits] s = s1
                     /\ rt_inv bf s1 /\ thread s1 = Exited) as (s1 & E1 & Hinv1 & Hex).
  { eexists; split; [reflexivity|]. split; [by apply rt_run_inv|].
    destruct s as [th res pend calls err]; simpl.
    destruct th; simpl; try done.
    destruct bf as [|e]; simpl; [done|]. by destruct (isinstance e Exception). }
  change [WorkerRuns; WorkerExits; MainLoopFires]
    with ([WorkerRuns; WorkerExits] ++ [MainLoopFires])%list.
  rewrite rt_run_app, E1.
  destruct Hinv1 as [Hthr Hq]. rewrite Hex in Hthr. destruct Hthr as [Hres _].
  destruct s1 as [th res pend calls err]; simpl in *. subst th.
  destruct Hq as [[-> [p ->]] | (-> & -> & _)]; simpl; by rewrite Hres.
Qed.

(** When [blocking_function] raises something that is not an instance of
    [Exception] (a [SystemExit], say), [thread_target] does not catch it:
    the worker thread dies of it with [result] still empty, and [check]
    nevertheless calls [done_callback] once the thread is gone, with no
    argument at all. *)
Theorem worker_base_exception_callback_without_arguments bf (e : exn)
    (evs : list rt_event) :
  bf = Raise e -> isinstance e Exception = false ->
  (forall args, args ∈ done_calls (rt_run bf evs run_in_thread) -> args = [])
  /\ (thread (rt_run bf evs run_in_thread) <> Running ->
      thread_error (rt_run bf evs run_in_thread) = Some e
      /\ result_list (rt_run bf evs run_in_thread) = [])
  /\ done_calls (rt_run bf (evs ++ [WorkerRuns; WorkerExits; MainLoopFires]) run_in_thread)
     = [[]].
Proof.
  intros -> He.
  pose proof (rt_reachable_inv (V := V) (Raise e) evs) as [Hthr Hq].
  assert (Hexp : expected_result (V := V) (Raise e) = []).
  { unfold expected_result. by rewrite He. }
  assert (Herr : expected_error (V := V) (Raise e) = Some e).
  { unfold expected_error. by rewrite He. }
  split; [|split].
  - intros args. destruct Hq as [[-> _] | (-> & _ & Hex)].
    + by intros ?%elem_of_nil.
    + intros ->%list_elem_of_singleton. rewrite Hex in Hthr.
      destruct Hthr as [-> _]. done.
  - intros Hrun. destruct (thread _); [done| |]; destruct Hthr as [-> ->]; done.
  - by rewrite rt_finished_calls, Hexp.
Qed.

(** The states in which the call of [done_callback] has been made are final:
    the thread has exited, no call of [check] is pending and no event changes
    anything.  Before that exactly one call of [check] is pending, so polling
    neither multiplies nor stops early. *)
Theorem check_polls_until_callback bf (evs : list rt_event) :
  length (pending (rt_run bf evs run_in_thread)) <= 1
  /\ (done_calls (rt_run bf evs run_in_thread) = [] ->
      exists p, pending (rt_run bf evs run_in_thread) = [p])
  /\ (done_calls (rt_run bf evs run_in_thread) <> [] ->
      pending (rt_run bf evs run_in_thread) = []
      /\ forall evs', rt_run bf evs' (rt_run bf evs run_in_thread)
                      = rt_run bf evs run_in_thread).
Proof.
  pose proof (rt_reachable_inv bf evs) as [Hthr Hq].
  set (s := rt_run bf evs run_in_thread) in *.
  split; [|split].
  - destruct Hq as [[_ [p ->]] | (_ & -> & _)]; simpl; lia.
  - intros Hnone. destruct Hq as [[_ Hp] | (Hc & _)]; [done | congruence].
  - intros Hsome. destruct Hq as [[Hc _] | (_ & Hp & Hex)]; [done|].
    split; [done|]. intros evs'.
    induction evs' as [|ev evs' IH]; [done|]. simpl.
    assert (rt_step bf ev s = None) as ->; [|done].
    unfold rt_step. rewrite Hex, Hp. by destruct ev.
Qed.

End WithResultType.

Lemma worker_base_exception_callback_without_arguments_witness :
  done_calls (rt_run (V := nat) (Raise (Exn SystemExit "" ""))
                ([MainLoopFires] ++ [WorkerRuns; WorkerExits; MainLoopFires]) run_in_thread)
  = [[]].
Proof.
  apply (worker_base_exception_callback_without_arguments (V := nat)
           (Raise (Exn SystemExit "" "")) (Exn SystemExit "" "") [MainLoopFires]).
  - reflexivity.
  - vm_compute. reflexivity.
Defined.

Lemma check_polls_until_callback_witness :
  pending (rt_run (Ok 5) [WorkerRuns; WorkerExits; MainLoopFires] run_in_thread) = []
  /\ forall evs',
       rt_run (Ok 5) evs' (rt_run (Ok 5) [WorkerRuns; WorkerExits; MainLoopFires] run_in_thread)
       = rt_run (Ok 5) [WorkerRuns; WorkerExits; MainLoopFires] run_in_thread.
Proof.
  apply (check_polls_until_callback (Ok 5) [WorkerRuns; WorkerExits; MainLoopFires]).
  vm_compute. discriminate.
Defined.

End MoreRunInThreadFacts.

(** * Further properties of [dialog.py] *)

Module MoreDialogFacts.
Import Str Tk Common Dialog DialogInvariants OsFacts DialogFacts Examples MoreExamples.

Section WithEnv.
Context `{env : RunEnv}.

(** *** The entry after an autocompletion *)

Lemma select_command_autocompletion_entry (item : Command) (prefix : string)
    (a : CommandAsker) :
  startswith (command_format item) prefix = true ->
  let a' := fst (_select_command_autocompletion item prefix a) in
  snd (_select_command_autocompletion item prefix a) = Ok tt
  /\ entry (command a')
     = EntryWidget (command_format item) (String.length prefix)
         (if (String.length prefix <? String.length (command_format item))%nat
          then Some (String.length prefix, String.length (command_format item))
          else None)
  /\ entry (cwd a') = entry_set_text (cwd_format item) (entry (cwd a))
  /\ terminal_var a' = external_terminal item
  /\ window a' = window a /\ run_clicked a' = run_clicked a
  /\ _suggestions a' = _suggestions a.
Proof.
  intros Hpre. unfold _select_command_autocompletion. rewrite Hpre.
  pose proof (startswith_length _ _ Hpre) as Hlen.
  unfold mbind, M_bind, mret, M_ret. rewrite !format_var_set_eq. unfold modify.
  set (a1 := fst (field_validate CommandField _)).
  cbn [get_field].
  set (e3 := selection_range _ _ _).
  set (a3 := set_entry CommandField e3 _).
  rewrite format_var_set_eq.
  set (a4 := fst (field_validate CwdField _)).
  destruct (field_validate_frame CommandField
    (set_entry CommandField
       (entry_set_text (command_format item) (entry (get_field CommandField a))) a))
    as [H1 _]. fold a1 in H1.
  destruct (field_validate_frame CwdField
    (set_entry CwdField
       (entry_set_text (cwd_format item) (entry (get_field CwdField a3))) a3))
    as [H4 _]. fold a4 in H4.
  unfold same_inputs in H1, H4. simpl in H1, H4.
  destruct H1 as (Hw1 & Hs1 & Hc1 & Hd1 & Ht1 & Hb1 & Hr1 & Hk1 & Hg1).
  destruct H4 as (Hw4 & Hs4 & Hc4 & Hd4 & Ht4 & Hb4 & Hr4 & Hk4 & Hg4).
  assert (He3 : e3 = EntryWidget (command_format item) (String.length prefix)
                      (if (String.length prefix <? String.length (command_format item))%nat
                       then Some (String.length prefix, String.length (command_format item))
                       else None)).
  { unfold e3, selection_range, icursor, entry_index_end. simpl. rewrite Hc1. simpl.
    rewrite !Nat.min_id, !(Nat.min_l _ _ Hlen). done. }
  simpl. rewrite Hc4, Hd4, He3, Hd1.
  repeat split; congruence.
Qed.

(** *** The dialog [__init__] leaves *)

Lemma field_validate_ok_display (self : field) (a a' : CommandAsker) :
  field_validate self a = (a', Ok tt) ->
  displayed self a'
  = match get_substituted_value self a with
    | Ok value => value
    | Raise _ => "Substitution error"
    end.
Proof.
  intros Hv. pose proof (field_validate_display self a) as Hd.
  rewrite Hv in Hd. cbn [fst] in Hd. unfold displayed. rewrite Hd.
  destruct (get_substituted_value self a) as [value|e] eqn:E.
  - apply show_value_content.
  - destruct (catches substitution_errors e) eqn:Ec; [apply show_error_content|].
    unfold field_validate, validate in Hv. rewrite E, Ec in Hv. done.
Qed.

Lemma same_inputs_get_substituted_value (self : field) (a a' : CommandAsker) :
  same_inputs a a' -> get_substituted_value self a' = get_substituted_value self a.
Proof.
  intros H. unfold get_substituted_value.
  by rewrite (same_inputs_get_command _ _ H).
Qed.

(** A dialog that [__init__] has made is open and not yet run, holds the
    suggestions and substitutions of its context, and is filled in: with the
    command to repeat, when the history has one, its command format in the
    command entry with all of it selected, its directory format and its
    terminal choice; and otherwise with an empty command, the directory
    [{folder_path}] and the output inside the editor.  Both displays already
    show what the fields format to, or "Substitution error". *)
Theorem init_fills_dialog (ctx : Context) (a : CommandAsker) :
  __init__ ctx = Ok a ->
  window a = true /\ run_clicked a = false
  /\ _suggestions a = get_commands_to_suggest ctx
  /\ _substitutions a = get_substitutions ctx
  /\ match get_command_to_repeat ctx with
     | Some previous_command =>
         entry_text (entry (command a)) = command_format previous_command
         /\ selected_text (entry (command a)) = command_format previous_command
         /\ entry_text (entry (cwd a)) = cwd_format previous_command
         /\ terminal_var a = external_terminal previous_command
     | None =>
         entry_text (entry (command a)) = ""
         /\ entry_selection (entry (command a)) = None
         /\ entry_text (entry (cwd a)) = "{folder_path}"
         /\ terminal_var a = false
     end
  /\ displayed CommandField a
     = match format_command (get_command a) with
       | Ok s => s
       | Raise _ => "Substitution error"
       end
  /\ displayed CwdField a
     = match format_cwd (get_command a) with
       | Ok p => path_str p
       | Raise _ => "Substitution error"
       end.
Proof.
  intros Hinit. pose proof (init_config ctx a Hinit) as [Hsubs _].
  unfold __init__ in Hinit.
  destruct (list_getitem repeat_bindings (key_id ctx)) as [repeat|e]; [|done].
  destruct (init_fill ctx (init_widgets ctx repeat)) as [a' [[]|e]] eqn:Hfill; [|done].
  injection Hinit as ->. unfold init_fill in Hfill.
  apply bind_ok in Hfill as (a1 & [] & H1 & Hfill).
  apply bind_ok in Hfill as (a2 & [] & H2 & Hfill).
  apply bind_ok in Hfill as (a3 & [] & H3 & Hfill).
  apply bind_ok in Hfill as (a4 & [] & H4 & H5).
  assert (Ha2 : a2 = set_suggestions (get_commands_to_suggest ctx) a1)
    by (by injection H2).
  assert (Ha3 : a3 = set_entry CommandField
                       (selection_range 0
                          (entry_index_end (entry (get_field CommandField a2)))
                          (entry (get_field CommandField a2))) a2)
    by (by injection H3).
  clear H2 H3.
  destruct (field_validate_frame CommandField a3) as [Hs4 _].
  rewrite H4 in Hs4. cbn [fst] in Hs4.
  destruct (field_validate_frame CwdField a4) as [Hs5 Hd5].
  rewrite H5 in Hs5, Hd5. cbn [fst] in Hs5, Hd5.
  pose proof (field_validate_ok_display _ _ _ H4) as Hshow4.
  pose proof (field_validate_ok_display _ _ _ H5) as Hshow5.
  rewrite <- (same_inputs_get_substituted_value CommandField _ _ Hs4) in Hshow4.
  rewrite <- (same_inputs_get_substituted_value CommandField _ _ Hs5) in Hshow4.
  rewrite <- (same_inputs_get_substituted_value CwdField _ _ Hs5) in Hshow5.
  unfold same_inputs in Hs4, Hs5. cbn [get_field other] in *.
  destruct Hs4 as (Hw4 & _ & Hc4 & Hd4 & Ht4 & _ & _ & Hk4 & Hg4).
  destruct Hs5 as (Hw5 & _ & Hc5 & Hd5' & Ht5 & _ & _ & Hk5 & Hg5).
  rewrite Ha3, Ha2 in Hw4, Hc4, Hd4, Ht4, Hk4, Hg4.
  simpl in Hw4, Hc4, Hd4, Ht4, Hk4, Hg4.
  assert (Hfirst :
    window a1 = true /\ run_clicked a1 = false
    /\ match get_command_to_repeat ctx with
       | Some previous_command =>
           entry_text (entry (command a1)) = command_format previous_command
           /\ entry_text (entry (cwd a1)) = cwd_format previous_command
           /\ terminal_var a1 = external_terminal previous_command
       | None =>
           entry_text (entry (command a1)) = ""
           /\ entry_text (entry (cwd a1)) = "{folder_path}"
           /\ terminal_var a1 = false
       end).
  { destruct (get_command_to_repeat ctx) as [previous_command|].
    - assert (Hpre : startswith (command_format previous_command) "" = true).
      { unfold startswith. by destruct (command_format previous_command). }
      pose proof (select_command_autocompletion_entry previous_command ""
                    (init_widgets ctx repeat) Hpre) as H.
      rewrite H1 in H. cbn [fst snd] in H.
      destruct H as (_ & Hc & Hd & Ht & Hw & Hk & _).
      rewrite Hc, Hd. simpl. done.
    - pose proof (format_var_set_frame CwdField "{folder_path}" (init_widgets ctx repeat))
        as H.
      rewrite H1 in H. cbn [fst get_field other] in H.
      destruct H as (Hd & Hc & Hw & _ & Ht & _ & _ & Hk & _).
      rewrite Hc, Hd. simpl. done. }
  destruct Hfirst as (Hw1 & Hk1 & Hfields).
  split; [congruence|]. split; [congruence|]. split; [congruence|]. split; [done|].
  split; [|split].
  - rewrite Hc5, Hc4, Hd5', Hd4, Ht5, Ht4.
    destruct (get_command_to_repeat ctx) as [previous_command|].
    + destruct Hfields as (Hc & Hd & Ht). rewrite Hd, Ht. repeat split.
      * simpl. done.
      * unfold selected_text, selection_range, entry_index_end. simpl. rewrite Hc.
        destruct (command_format previous_command) as [|c s] eqn:E; [done|].
        simpl. rewrite Nat.min_id. simpl. f_equal. apply str_take_all. lia.
    + destruct Hfields as (Hc & Hd & Ht). rewrite Hd, Ht. repeat split.
      * simpl. done.
      * unfold selection_range, entry_index_end. simpl. by rewrite Hc.
  - unfold displayed in *. cbn [get_field] in *. rewrite Hd5, Hshow4. done.
  - rewrite Hshow5. simpl. by destruct (format_cwd (get_command a)).
Qed.

(** *** The repeat key of a new dialog *)

Lemma list_getitem_lookup {A : Type} (l : list A) (i : Z) (x : A) :
  list_getitem l i = Ok x ->
  (- Z.of_nat (length l) <= i < Z.of_nat (length l))%Z
  /\ l !! Z.to_nat (if (i <? 0)%Z then i + Z.of_nat (length l) else i)%Z = Some x.
Proof.
  unfold list_getitem. destruct (i <? 0)%Z eqn:Hneg.
  - apply Z.ltb_lt in Hneg.
    destruct (i + Z.of_nat (length l) <? 0)%Z eqn:Hlow; [done|].
    apply Z.ltb_ge in Hlow.
    destruct (l !! _) as [y|] eqn:E; [|done]. intros [= <-]. split; [lia | done].
  - apply Z.ltb_ge in Hneg. rewrite (proj2 (Z.ltb_ge i 0) Hneg).
    destruct (l !! _) as [y|] eqn:E; [|done]. intros [= <-].
    apply lookup_lt_Some in E. split; [lia | done].
Qed.

Lemma list_getitem_out_of_range {A : Type} (l : list A) (i : Z) :
  (i < - Z.of_nat (length l) \/ Z.of_nat (length l) <= i)%Z ->
  exists e, list_getitem l i = Raise e /\ exn_class e = IndexError.
Proof.
  intros Hout. unfold list_getitem. destruct (i <? 0)%Z eqn:Hneg.
  - apply Z.ltb_lt in Hneg.
    destruct (i + Z.of_nat (length l) <? 0)%Z eqn:Hlow; [eauto|].
    apply Z.ltb_ge in Hlow. lia.
  - apply Z.ltb_ge in Hneg. rewrite (proj2 (Z.ltb_ge i 0) Hneg).
    destruct (l !! _) as [y|] eqn:E; [|eauto].
    apply lookup_lt_Some in E. lia.
Qed.

Lemma list_index_first `{EqDecision A} (l : list A) (j : nat) (x : A) :
  l !! j = Some x ->
  exists k, list_index x l = Some k /\ k <= j /\ l !! k = Some x.
Proof.
  revert j. induction l as [|y l IH]; intros j Hj; [done|].
  simpl. destruct (decide (y = x)) as [->|Hne].
  - exists 0. split; [done|]. split; [lia | done].
  - destruct j as [|j]; simpl in Hj; [congruence|].
    destruct (IH j Hj) as (k & -> & Hk & Hlk).
    exists (S k). split; [done|]. split; [lia | done].
Qed.

Lemma repeat_var_update_run_button (repeat : string) :
  keeps (fun a => _repeat_var a = repeat) update_run_button.
Proof.
  intros a <-. destruct (update_run_button_frame a) as [Hs _].
  unfold same_inputs in Hs. by destruct_and!.
Qed.

Lemma init_repeat_var (ctx : Context) (a : CommandAsker) :
  __init__ ctx = Ok a ->
  list_getitem repeat_bindings (key_id ctx) = Ok (_repeat_var a).
Proof.
  intros Hinit.
  destruct (keeps_init (fun a' => _repeat_var a' = _repeat_var a)) with (ctx := ctx) (a := a)
    as (repeat & Hget & H); [| |done|].
  - intros a1 a2 _ _ Hr _. congruence.
  - intros a1 Ha1. destruct (update_run_button_frame a1) as [Hs _].
    unfold same_inputs in Hs. destruct_and!. congruence.
  - rewrite Hget. f_equal.
    unfold __init__ in Hinit. rewrite Hget in Hinit.
    pose proof (keeps_init_fill (fun a' => _repeat_var a' = repeat)) as Hk.
    specialize (Hk ltac:(intros a1 a2 _ _ Hr _; congruence)
                   (repeat_var_update_run_button repeat) ctx (init_widgets ctx repeat) eq_refl).
    destruct (init_fill ctx (init_widgets ctx repeat)) as [a' [[]|e]]; [|done].
    injection Hinit as <-. done.
Qed.

(** [__init__] takes the repeat key from the four repeat bindings by
    [ctx.key_id], as a Python index: outside [-4 .. 3] it ends with an
    IndexError, a negative key id counts from the end, and in a dialog it has
    made [get_key_id] returns the first index at which the binding of that
    key stands, which is the key id itself when the four bindings differ. *)
Theorem init_key_id_round_trip (ctx : Context) :
  ((key_id ctx < -4 \/ 4 <= key_id ctx)%Z ->
     exists e, __init__ ctx = Raise e /\ exn_class e = IndexError)
  /\ (forall a, __init__ ctx = Ok a ->
       let index := Z.to_nat (if (key_id ctx <? 0)%Z then key_id ctx + 4 else key_id ctx)%Z in
       (-4 <= key_id ctx < 4)%Z
       /\ repeat_bindings !! index = Some (_repeat_var a)
       /\ (exists key, get_key_id a = Ok key /\ key <= index
                       /\ repeat_bindings !! key = Some (_repeat_var a))
       /\ (NoDup repeat_bindings -> get_key_id a = Ok index)).
Proof.
  split.
  - intros Hout. unfold __init__.
    destruct (list_getitem_out_of_range repeat_bindings (key_id ctx)) as (e & -> & He);
      [simpl; lia | eauto].
  - intros a Hinit index.
    pose proof (init_repeat_var ctx a Hinit) as Hget.
    apply list_getitem_lookup in Hget as [Hrange Hlookup].
    change (Z.of_nat (length repeat_bindings)) with 4%Z in *. fold index in Hlookup.
    pose proof (init_config ctx a Hinit) as [_ Hb].
    destruct (list_index_first _ _ _ Hlookup) as (k & Hk & Hle & Hlk).
    assert (Hkey : get_key_id a = Ok k) by (unfold get_key_id; by rewrite Hb, Hk).
    split; [done|]. split; [done|]. split; [eauto|].
    intros Hnd. rewrite Hkey. f_equal. by eapply NoDup_lookup.
Qed.

(** *** Validating again *)

Lemma show_value_twice (value : string) (d : text_widget) :
  show_value value (show_value value d) = show_value value d.
Proof. by destruct d. Qed.

Lemma show_error_twice (d : text_widget) : show_error (show_error d) = show_error d.
Proof. by destruct d. Qed.

Lemma set_display_same (self : field) (a : CommandAsker) :
  set_display self (_command_display (get_field self a)) a = a.
Proof. destruct a as [w subs [ce cd] [de dd] t bindings r button clicked sugg]. by destruct self. Qed.

Lemma update_run_button_twice (a : CommandAsker) :
  update_run_button (fst (update_run_button a))
  = (fst (update_run_button a), snd (update_run_button a)).
Proof.
  unfold update_run_button.
  destruct (command_and_cwd_are_valid a) as [valid|e] eqn:E; cbn [fst snd].
  - destruct (valid && bool_decide (_repeat_var a ∈ _repeat_bindings a)) eqn:B;
      cbn [fst snd];
      change (command_and_cwd_are_valid (set_run_button ?st a))
        with (command_and_cwd_are_valid a);
      rewrite E; cbn [set_run_button _repeat_var _repeat_bindings]; by rewrite B.
  - by rewrite E.
Qed.

(** The field is validated a second time with the display the first run has
    written. *)
Lemma validate_again (self : field) (a : CommandAsker) (d : text_widget) :
  get_substituted_value self (fst (update_run_button (set_display self d a)))
  = get_substituted_value self a.
Proof.
  apply same_inputs_get_substituted_value.
  eapply same_inputs_trans; [|apply update_run_button_frame].
  by destruct self.
Qed.

(** [validate] is idempotent: run a second time on the dialog it has left,
    it ends the same way and changes nothing, so the text of a display is
    replaced and never added to. *)
Theorem field_validate_idempotent (self : field) (a : CommandAsker) :
  field_validate self (fst (field_validate self a))
  = (fst (field_validate self a), snd (field_validate self a)).
Proof.
  destruct (get_substituted_value self a) as [value|e] eqn:G.
  - set (d := show_value value (_command_display (get_field self a))).
    assert (H1 : field_validate self a = update_run_button (set_display self d a))
      by (by apply validate_value).
    rewrite H1. unfold field_validate. rewrite (validate_value _ _ _ _ value).
    2: { by rewrite validate_again. }
    rewrite update_run_button_display, get_set_display. unfold d.
    rewrite show_value_twice. fold d.
    rewrite <- (get_set_display self d a) at 1.
    rewrite <- (update_run_button_display self (set_display self d a)).
    rewrite set_display_same. apply update_run_button_twice.
  - destruct (catches substitution_errors e) eqn:C.
    + set (d := show_error (_command_display (get_field self a))).
      assert (H1 : field_validate self a = update_run_button (set_display self d a))
        by (by apply (validate_caught _ _ _ _ e)).
      rewrite H1. unfold field_validate. rewrite (validate_caught _ _ _ _ e).
      2: { by rewrite validate_again. }
      2: done.
      rewrite update_run_button_display, get_set_display. unfold d.
      rewrite show_error_twice. fold d.
      rewrite <- (get_set_display self d a) at 1.
      rewrite <- (update_run_button_display self (set_display self d a)).
      rewrite set_display_same. apply update_run_button_twice.
    + assert (H1 : field_validate self a = (a, Raise e)).
      { unfold field_validate, validate. by rewrite G, C. }
      rewrite H1. cbn [fst snd]. exact H1.
Qed.

(** *** Typing along a suggestion *)

Lemma startswith_app_l (s p c : string) :
  startswith s (p +:+ c) = true -> startswith s p = true.
Proof.
  unfold startswith. revert s. induction p as [|x p IH]; intros s.
  - by destruct s.
  - rewrite append_cons. destruct s as [|y s]; simpl; [done|].
    destruct (ascii_dec x y); [apply IH | done].
Qed.

Lemma startswith_take (s p : string) :
  startswith s p = true -> str_take (String.length p) s = p.
Proof.
  unfold startswith. revert s. induction p as [|x p IH]; intros s.
  - by destruct s.
  - destruct s as [|y s]; simpl; [done|].
    destruct (ascii_dec x y) as [->|]; [|done]. intros H. by rewrite IH.
Qed.

Lemma autocomplete_loop_first_state (before after : list Command) (item : Command)
    (prefix : string) (a : CommandAsker) :
  (forall x, x ∈ before -> startswith (command_format x) prefix = false) ->
  startswith (command_format item) prefix = true ->
  autocomplete_loop (before ++ item :: after) prefix a =
  (fst (_select_command_autocompletion item prefix a), Ok (Some "break")).
Proof.
  intros Hbefore Hitem. induction before as [|x before IH]; simpl.
  - rewrite Hitem. unfold mbind, M_bind.
    pose proof (select_command_autocompletion_entry item prefix a Hitem) as [Hok _].
    destruct (_select_command_autocompletion item prefix a) as [a' r].
    simpl in Hok. by rewrite Hok.
  - rewrite (Hbefore x) by apply list_elem_of_here.
    apply IH. intros y Hy. apply Hbefore. by apply list_elem_of_further.
Qed.

(** Once [_autocomplete] has completed the entry to a suggestion, typing the
    next character of that suggestion keeps it: the second keystroke finds
    the same suggestion, the entry still holds its whole [command_format],
    the cursor has moved one character on and the selected rest is one
    character shorter. *)
Theorem autocomplete_follows_suggestion (char next : string) (a : CommandAsker)
    (before after : list Command) (item : Command) :
  autocomplete_acts char a ->
  _suggestions a = (before ++ item :: after)%list ->
  (forall x, x ∈ before ->
     startswith (command_format x) (text_to_keep a +:+ char) = false) ->
  String.length next = 1 -> isprintable next = true ->
  startswith (command_format item) ((text_to_keep a +:+ char) +:+ next) = true ->
  exists a' a'',
    _autocomplete char a = (a', Ok (Some "break"))
    /\ _autocomplete next a' = (a'', Ok (Some "break"))
    /\ entry_text (entry (command a'')) = command_format item
    /\ entry_insert (entry (command a'')) = S (entry_insert (entry (command a')))
    /\ entry_insert (entry (command a'')) = String.length (text_to_keep a +:+ char) + 1
    /\ selected_text (entry (command a''))
       = str_drop (String.length (text_to_keep a +:+ char) + 1) (command_format item)
    /\ entry_text (entry (cwd a'')) = cwd_format item
    /\ terminal_var a'' = external_terminal item.
Proof.
  intros Hacts Hsugg Hbefore Hlen Hprint Hnext.
  set (prefix := text_to_keep a +:+ char) in *.
  pose proof (startswith_app_l _ _ _ Hnext) as Hitem.
  pose proof (startswith_length _ _ Hnext) as Hlong.
  rewrite length_append, Hlen in Hlong.
  pose proof (select_command_autocompletion_entry item prefix a Hitem)
    as (_ & Hentry & _ & _ & _ & _ & Hsugg').
  set (a' := fst (_select_command_autocompletion item prefix a)) in *.
  assert (Hsel : entry_selection (entry (command a'))
                 = Some (String.length prefix, String.length (command_format item))).
  { rewrite Hentry. simpl.
    by rewrite (proj2 (Nat.ltb_lt _ _)) by lia. }
  assert (Hacts' : autocomplete_acts next a').
  { split; [done|]. split; [done|]. intros sel_first sel_last Heq.
    rewrite Hsel in Heq. injection Heq as <- <-.
    unfold entry_index_end. by rewrite Hentry. }
  assert (Hkeep : text_to_keep a' = prefix).
  { unfold text_to_keep. rewrite Hsel. unfold entry_get. rewrite Hentry. simpl.
    by apply startswith_take. }
  assert (Hbefore' : forall x, x ∈ before ->
            startswith (command_format x) (prefix +:+ next) = false).
  { intros x Hx. destruct (startswith (command_format x) (prefix +:+ next)) eqn:E; [|done].
    apply startswith_app_l in E. by rewrite (Hbefore x Hx) in E. }
  exists a', (fst (_select_command_autocompletion item (prefix +:+ next) a')).
  split.
  { rewrite autocomplete_acts_loop, Hsugg by done. fold prefix.
    by apply autocomplete_loop_first_state. }
  split.
  { rewrite autocomplete_acts_loop, Hkeep, Hsugg', Hsugg by done.
    by apply autocomplete_loop_first_state. }
  destruct (select_command_autocompletion_spec item (prefix +:+ next) a' Hnext)
    as (a2 & Ha2 & Htext & Hins & Hselected & Hcwd & Hterm & _).
  rewrite Ha2. simpl.
  rewrite Htext, Hins, Hselected, Hcwd, Hterm, Hentry, length_append, Hlen. simpl.
  repeat split; lia.
Qed.

(** *** The Run button between events *)

(** Formatting raising only what the dialog catches and not reading the
    choice of terminal, the Run button of a dialog is enabled, after
    [__init__] and after every event, exactly when both fields format now,
    the formatted command is not blank, the formatted directory exists and
    is absolute, and the chosen repeat key is a repeat binding: no event
    leaves the button out of date. *)
Theorem run_button_tracks_validity (ctx : Context) (a0 : CommandAsker)
    (events : list ui_event) :
  formats_safely -> terminal_independent -> __init__ ctx = Ok a0 ->
  run_button (dialog_run events a0) = StateNormal <->
  (exists command cwd,
     format_command (get_command (dialog_run events a0)) = Ok command
     /\ format_cwd (get_command (dialog_run events a0)) = Ok cwd
     /\ strip command <> ""
     /\ is_dir cwd = true /\ is_absolute cwd = true)
  /\ _repeat_var (dialog_run events a0) ∈ _repeat_bindings (dialog_run events a0).
Proof.
  intros Hsafe Hterm Hinit.
  rewrite <- command_and_cwd_are_valid_true.
  by apply (up_to_date_dialog_run ctx).
Qed.

(** *** What [ask_command] returns *)

Lemma autocomplete_loop_window (items : list Command) (prefix : string) (a : CommandAsker) :
  window (fst (autocomplete_loop items prefix a)) = window a
  /\ run_clicked (fst (autocomplete_loop items prefix a)) = run_clicked a.
Proof.
  induction items as [|item items IH]; simpl; [done|].
  destruct (startswith (command_format item) prefix) eqn:Hpre; [|apply IH].
  pose proof (select_command_autocompletion_entry item prefix a Hpre)
    as (Hok & _ & _ & _ & Hw & Hc & _).
  unfold mbind, M_bind.
  destruct (_select_command_autocompletion item prefix a) as [a' r].
  cbn [fst snd] in *. by rewrite Hok.
Qed.

Lemma autocomplete_window (char : string) (a : CommandAsker) :
  window (fst (_autocomplete char a)) = window a
  /\ run_clicked (fst (_autocomplete char a)) = run_clicked a.
Proof.
  unfold _autocomplete.
  destruct (_ || _); [done|].
  destruct (entry_selection _) as [[sel_first sel_last]|];
    [destruct (negb _); [done|]|]; apply autocomplete_loop_window.
Qed.

(** [run_clicked] becomes true only where the Run button is invoked while
    it is enabled, and the window is destroyed there. *)
Lemma handle_run_clicked (ev : ui_event) (a : CommandAsker) :
  run_clicked a = false -> run_clicked (fst (handle ev a)) = true ->
  window (fst (handle ev a)) = false
  /\ run_button (fst (handle ev a)) = StateNormal.
Proof.
  intros Hc. destruct ev; cbn [handle].
  - destruct (autocomplete_window char a) as [_ H].
    unfold call_wrapper, mbind, M_bind, mret, M_ret. cbn [fst].
    destruct (_autocomplete char a) as [a' [x|e]]; cbn [fst] in *; intros; congruence.
  - destruct (format_var_set_frame self text a) as (_ & _ & _ & _ & _ & _ & _ & H & _).
    intros; congruence.
  - simpl. intros; congruence.
  - simpl. intros; congruence.
  - destruct (update_run_button_frame (set_repeat_var s a)) as [Hs _].
    destruct Hs as (_ & _ & _ & _ & _ & _ & _ & H & _). simpl in H.
    unfold repeat_var_set, call_wrapper, mbind, M_bind, modify. cbn [fst].
    intros; congruence.
  - destruct (run_button a) eqn:Hb; [done | cbn [fst]; intros; congruence].
  - simpl. intros; congruence.
Qed.

Lemma wait_window_destroyed (events : list ui_event) (a : CommandAsker) :
  window a = false -> wait_window events a = Some a.
Proof. intros H. destruct events; simpl; by rewrite H. Qed.

(** [wait_window] returns when some of the events have been handled and
    the window is gone. *)
Lemma wait_window_dialog_run (events : list ui_event) (a a' : CommandAsker) :
  wait_window events a = Some a' ->
  window a' = false /\ exists n, a' = dialog_run (take n events) a.
Proof.
  revert a. induction events as [|ev events IH]; intros a; simpl.
  - destruct (window a) eqn:W; [done|]. intros [= <-]. split; [done|]. by exists 0.
  - destruct (window a) eqn:W.
    + intros H. destruct (IH _ H) as [Hw [n ->]]. split; [done|]. by exists (S n).
    + intros [= <-]. split; [done|]. by exists 0.
Qed.

Lemma wait_window_run_clicked (events : list ui_event) (a a' : CommandAsker) :
  run_clicked a = false -> wait_window events a = Some a' ->
  run_clicked a' = true -> run_button a' = StateNormal.
Proof.
  revert a. induction events as [|ev events IH]; intros a Hc; simpl.
  - destruct (window a); [done|]. intros [= <-]. congruence.
  - destruct (window a) eqn:W; [|intros [= <-]; congruence].
    destruct (run_clicked (fst (handle ev a))) eqn:C; [|by apply IH].
    destruct (handle_run_clicked ev a Hc C) as [Hw Hb].
    rewrite (wait_window_destroyed _ _ Hw). by intros [= <-].
Qed.

Lemma init_run_clicked (ctx : Context) (a : CommandAsker) :
  __init__ ctx = Ok a -> run_clicked a = false.
Proof.
  unfold __init__.
  destruct (list_getitem repeat_bindings (key_id ctx)) as [repeat|e]; [|done].
  destruct (init_fill ctx (init_widgets ctx repeat)) as [a' [[]|e]] eqn:Hfill; [|done].
  intros [= <-]. unfold init_fill in Hfill.
  apply bind_ok in Hfill as (a1 & [] & H1 & Hfill).
  apply bind_ok in Hfill as (a2 & [] & H2 & Hfill).
  apply bind_ok in Hfill as (a3 & [] & H3 & Hfill).
  apply bind_ok in Hfill as (a4 & [] & H4 & H5).
  assert (Hk2 : run_clicked a2 = run_clicked a1) by (by injection H2 as <-).
  assert (Hk3 : run_clicked a3 = run_clicked a2) by (by injection H3 as <-).
  destruct (field_validate_frame CommandField a3) as [Hs4 _].
  rewrite H4 in Hs4. cbn [fst] in Hs4.
  destruct (field_validate_frame CwdField a4) as [Hs5 _].
  rewrite H5 in Hs5. cbn [fst] in Hs5.
  destruct Hs4 as (_ & _ & _ & _ & _ & _ & _ & Hk4 & _).
  destruct Hs5 as (_ & _ & _ & _ & _ & _ & _ & Hk5 & _).
  assert (Hk1 : run_clicked a1 = false).
  { destruct (get_command_to_repeat ctx) as [previous_command|].
    - assert (Hpre : startswith (command_format previous_command) "" = true).
      { unfold startswith. by destruct (command_format previous_command). }
      pose proof (select_command_autocompletion_entry previous_command ""
                    (init_widgets ctx repeat) Hpre) as H.
      rewrite H1 in H. cbn [fst snd] in H.
      by destruct H as (_ & _ & _ & _ & _ & Hk & _).
    - pose proof (format_var_set_frame CwdField "{folder_path}" (init_widgets ctx repeat))
        as H.
      rewrite H1 in H. cbn [fst] in H.
      by destruct H as (_ & _ & _ & _ & _ & _ & _ & Hk & _). }
  congruence.
Qed.

Lemma winfo_exists_destroyed (w : World) :
  winfo_exists ".run_command_asker" (destroy_asker_window w) = false.
Proof.
  unfold winfo_exists, destroy_asker_window. simpl.
  apply bool_decide_eq_false. rewrite list_elem_of_filter. by intros [? _].
Qed.

(** Formatting raising only what the dialog catches and not reading the
    choice of terminal: when no dialog is open and [__init__] makes one,
    [ask_command] does not raise and leaves no dialog window; it returns
    [None] unless Run was invoked while the button was enabled, and then the
    command of the fields as they are, with the substitutions of the
    context, whose two fields format to a command that is not blank and to
    an absolute directory that exists, and a key number below 4 that is the
    place of the chosen repeat key among the repeat bindings. *)
Theorem ask_command_returns_valid_command (ctx : Context) (events : list ui_event)
    (w w' : World) (r : result (option (Command * nat))) (a0 : CommandAsker) :
  formats_safely -> terminal_independent ->
  winfo_exists ".run_command_asker" w = false ->
  __init__ ctx = Ok a0 ->
  ask_command ctx events w = Some (w', r) ->
  winfo_exists ".run_command_asker" w' = false
  /\ exists a,
       wait_window events a0 = Some a
       /\ window a = false
       /\ if run_clicked a then
            exists key command cwd,
              r = Ok (Some (get_command a, key))
              /\ key < 4
              /\ repeat_bindings !! key = Some (_repeat_var a)
              /\ substitutions (get_command a) = get_substitutions ctx
              /\ format_command (get_command a) = Ok command
              /\ format_cwd (get_command a) = Ok cwd
              /\ strip command <> ""
              /\ is_dir cwd = true /\ is_absolute cwd = true
          else r = Ok None.
Proof.
  intros Hsafe Hterm Hw Hinit. unfold ask_command, ask_command_enter.
  rewrite Hw, Hinit.
  destruct (wait_window events a0) as [a|] eqn:Hwait; [|done].
  destruct (wait_window_dialog_run _ _ _ Hwait) as [Hgone [n Hrun]].
  pose proof (wait_window_run_clicked _ _ _ (init_run_clicked _ _ Hinit) Hwait) as Hbutton.
  pose proof (up_to_date_dialog_run ctx a0 (take n events) Hsafe Hterm Hinit) as Hvalid.
  pose proof (dialog_run_button_inv ctx a0 (take n events) Hsafe Hinit) as Hinv.
  pose proof (dialog_run_config (take n events) a0) as [Hsubs Hbind].
  apply init_config in Hinit as [Hsubs0 Hbind0].
  rewrite <- Hrun in *. rewrite Hsubs0 in Hsubs. rewrite Hbind0 in Hbind.
  destruct (run_clicked a) eqn:Hclicked.
  - specialize (Hbutton eq_refl). specialize (Hinv Hbutton).
    apply Hvalid in Hbutton as [Hok _].
    apply command_and_cwd_are_valid_true in Hok
      as (command & cwd & Hcmd & Hcwd & Hstrip & Hdir & Habs).
    unfold get_key_id. destruct (list_index_Some _ _ Hinv) as (key & -> & Hkey).
    intros [= <- <-]. split; [apply winfo_exists_destroyed|].
    exists a. split; [done|]. split; [done|]. rewrite Hclicked.
    exists key, command, cwd. rewrite Hbind in Hkey.
    repeat split; try done.
    apply lookup_lt_Some in Hkey. exact Hkey.
  - intros [= <- <-]. split; [apply winfo_exists_destroyed|].
    exists a. split; [done|]. split; [done|]. by rewrite Hclicked.
Qed.

(** When [__init__] raises, the Toplevel it has made first is still there:
    [ask_command] ends with that exception, and every later call finds the
    window, gives it the focus and returns [None] without making a dialog. *)
Theorem ask_command_failed_init_blocks_dialog (ctx : Context) (events : list ui_event)
    (w : World) (e : exn) :
  winfo_exists ".run_command_asker" w = false ->
  __init__ ctx = Raise e ->
  exists w1,
    ask_command ctx events w = Some (w1, Raise e)
    /\ windows w1 = ".run_command_asker" :: windows w
    /\ forall ctx' events',
         ask_command ctx' events' w1
         = Some (MkWorld (windows w1) (Some ".run_command_asker"), Ok None).
Proof.
  intros Hw Hinit. unfold ask_command at 1. unfold ask_command_enter. rewrite Hw, Hinit.
  eexists. split; [reflexivity|]. split; [reflexivity|].
  intros ctx' events'. unfold ask_command, ask_command_enter, winfo_exists. cbn [windows].
  rewrite bool_decide_eq_true_2; [done | apply list_elem_of_here].
Qed.

End WithEnv.

Lemma init_fills_dialog_witness :
  exists a,
    __init__ (env := example_history_env) example_history_ctx = Ok a
    /\ selected_text (entry (command a)) = "pytest"
    /\ displayed CwdField a = "/home/me".
Proof.
  destruct (__init__ (env := example_history_env) example_history_ctx) as [a|e] eqn:Hinit;
    [|vm_compute in Hinit; discriminate].
  exists a. split; [reflexivity|].
  destruct (init_fills_dialog (env := example_history_env) example_history_ctx a Hinit)
    as (_ & _ & _ & _ & (_ & Hsel & _) & _ & Hcwd).
  split; [exact Hsel|].
  rewrite Hcwd. injection Hinit as <-. vm_compute. reflexivity.
Defined.

Lemma init_key_id_round_trip_witness :
  exists a,
    __init__ (env := example_history_env) example_history_ctx = Ok a
    /\ get_key_id a = Ok 2.
Proof.
  destruct (__init__ (env := example_history_env) example_history_ctx) as [a|e] eqn:Hinit;
    [|vm_compute in Hinit; discriminate].
  exists a. split; [reflexivity|].
  apply (init_key_id_round_trip (env := example_history_env) example_history_ctx); [exact Hinit|].
  apply (bool_decide_unpack _). vm_compute. exact I.
Defined.

Lemma field_validate_idempotent_witness :
  field_validate (env := example_env) CommandField
    (fst (field_validate (env := example_env) CommandField example_asker_unknown))
  = (fst (field_validate (env := example_env) CommandField example_asker_unknown),
     snd (field_validate (env := example_env) CommandField example_asker_unknown)).
Proof.
  apply (field_validate_idempotent (env := example_env) CommandField example_asker_unknown).
Defined.

Lemma autocomplete_follows_suggestion_witness :
  exists a' a'',
    _autocomplete (env := example_env) "y" example_asker = (a', Ok (Some "break"))
    /\ _autocomplete (env := example_env) "t" a' = (a'', Ok (Some "break"))
    /\ entry_text (entry (command a'')) = "python3 {file_name}"
    /\ entry_insert (entry (command a'')) = S (entry_insert (entry (command a')))
    /\ entry_insert (entry (command a'')) = 3
    /\ selected_text (entry (command a'')) = "hon3 {file_name}"
    /\ entry_text (entry (cwd a'')) = "{folder_path}"
    /\ terminal_var a'' = true.
Proof.
  apply (autocomplete_follows_suggestion (env := example_env) "y" "t" example_asker
           [MkCommand "make" "{folder_path}" false example_substitutions]
           [MkCommand "pytest" "{folder_path}" false example_substitutions]
           (MkCommand "python3 {file_name}" "{folder_path}" true example_substitutions)).
  - split; [reflexivity|]. split; [reflexivity|].
    intros sel_first sel_last H. vm_compute in H. injection H as <- <-. reflexivity.
  - reflexivity.
  - intros x Hx. apply list_elem_of_singleton in Hx as ->. reflexivity.
  - reflexivity.
  - reflexivity.
  - reflexivity.
Defined.

Lemma example_env_terminal_independent : terminal_independent (env := example_env).
Proof. intros command_format cwd_format t t' subs. split; reflexivity. Qed.

Lemma run_button_tracks_validity_witness :
  exists a0,
    __init__ (env := example_env) example_ctx = Ok a0
    /\ run_button (dialog_run (env := example_env) [Edited CommandField "ls"; AltE] a0)
       = StateNormal.
Proof.
  destruct (__init__ (env := example_env) example_ctx) as [a0|e] eqn:Hinit;
    [|vm_compute in Hinit; discriminate].
  exists a0. split; [reflexivity|].
  apply (run_button_tracks_validity (env := example_env) example_ctx a0
           [Edited CommandField "ls"; AltE]).
  - apply spec_env_formats_safely.
  - apply example_env_terminal_independent.
  - exact Hinit.
  - vm_compute in Hinit. injection Hinit as <-. split.
    + exists "ls", "/home/me".
      split; [vm_compute; reflexivity|]. split; [vm_compute; reflexivity|].
      split; [vm_compute; discriminate|]. split; vm_compute; reflexivity.
    + apply (bool_decide_unpack _). vm_compute. exact I.
Defined.

Lemma ask_command_returns_valid_command_witness :
  exists a0 w' r,
    __init__ (env := example_env) example_ctx = Ok a0
    /\ ask_command (env := example_env) example_ctx
         [Edited CommandField "ls"; RunInvoked] example_world_closed = Some (w', r)
    /\ winfo_exists ".run_command_asker" w' = false
    /\ exists a,
         wait_window (env := example_env) [Edited CommandField "ls"; RunInvoked] a0 = Some a
         /\ window a = false
         /\ if run_clicked a then
              exists key command cwd,
                r = Ok (Some (get_command a, key))
                /\ key < 4
                /\ repeat_bindings (env := example_env) !! key = Some (_repeat_var a)
                /\ substitutions (get_command a) = example_substitutions
                /\ spec_format_command (get_command a) = Ok command
                /\ spec_format_cwd (get_command a) = Ok cwd
                /\ strip command <> ""
                /\ bool_decide (cwd ∈ ({["/home/me"]} : gset string)) = true
                /\ startswith cwd "/" = true
            else r = Ok None.
Proof.
  destruct (__init__ (env := example_env) example_ctx) as [a0|e] eqn:Hinit;
    [|vm_compute in Hinit; discriminate].
  destruct (ask_command (env := example_env) example_ctx
              [Edited CommandField "ls"; RunInvoked] example_world_closed)
    as [[w' r]|] eqn:Hask; [|vm_compute in Hask; discriminate].
  exists a0, w', r. split; [reflexivity|]. split; [reflexivity|].
  apply (ask_command_returns_valid_command (env := example_env) example_ctx
           [Edited CommandField "ls"; RunInvoked] example_world_closed w' r a0).
  - apply spec_env_formats_safely.
  - apply example_env_terminal_independent.
  - reflexivity.
  - exact Hinit.
  - exact Hask.
Defined.

Lemma ask_command_failed_init_blocks_dialog_witness :
  exists w1,
    ask_command (env := example_bad_key_env) example_bad_key_ctx [RunInvoked]
      example_world_closed
    = Some (w1, Raise (Exn IndexError "list index out of range" ""))
    /\ windows w1 = [".run_command_asker"; "."]
    /\ forall ctx' events',
         ask_command (env := example_bad_key_env) ctx' events' w1
         = Some (MkWorld (windows w1) (Some ".run_command_asker"), Ok None).
Proof.
  apply (ask_command_failed_init_blocks_dialog (env := example_bad_key_env)
           example_bad_key_ctx [RunInvoked] example_world_closed).
  - reflexivity.
  - vm_compute. reflexivity.
Defined.

End MoreDialogFacts.

(** * Properties of the hooks of [utils.py] *)

Module HookFacts.
Import Hooks.
Local Open Scope list_scope.

Section WithCallbacks.
Context {W Args : Type}.
Variable call :
  callable -> Args -> @state W -> @state W * outcome (option (@generator W)).

Local Abbreviation state := (@state W).
Local Abbreviation keeps_callbacks := (keeps_callbacks call).
Local Abbreviation keeps_unhandled := (keeps_unhandled call).
Local Abbreviation raises_exceptions_only := (raises_exceptions_only call).

(** *** [connect] and [disconnect] *)

Lemma list_remove_None (x : callable) (l : list callable) :
  list_remove x l = None <-> x ∉ l.
Proof.
  induction l as [|y l IH]; simpl.
  - split; [intros _; apply not_elem_of_nil | done].
  - rewrite not_elem_of_cons. destruct (decide (y = x)) as [->|Hne].
    + split; [done | by intros [? _]].
    + destruct (list_remove x l) as [r|]; simpl.
      * split; [done|]. intros [_ H]. by apply IH in H.
      * split; [|done]. intros _. split; [done | by apply IH].
Qed.

Lemma list_remove_first (x : callable) (l1 l2 : list callable) :
  x ∉ l1 -> list_remove x (l1 ++ x :: l2) = Some (l1 ++ l2).
Proof.
  induction l1 as [|y l1 IH]; simpl; intros Hx.
  - by rewrite decide_True.
  - apply not_elem_of_cons in Hx as [Hne Hx].
    rewrite decide_False by done. by rewrite IH.
Qed.

Lemma elem_of_first (x : callable) (l : list callable) :
  x ∈ l -> exists l1 l2, l = l1 ++ x :: l2 /\ x ∉ l1.
Proof.
  induction l as [|y l IH]; [by intros ?%elem_of_nil|].
  intros Hin. destruct (decide (y = x)) as [->|Hne].
  - exists [], l. split; [done | apply not_elem_of_nil].
  - apply elem_of_cons in Hin as [->|Hin]; [done|].
    destruct (IH Hin) as (l1 & l2 & -> & Hx).
    exists (y :: l1), l2. split; [done|]. apply not_elem_of_cons. by split.
Qed.

(** [disconnect] undoes the [connect] of a callback that was not connected
    before, and raises ValueError, leaving the hook as it is, for a callback
    that is not connected.  For a callback that was connected already it
    removes the earliest connection and not the one just made, so the
    callback is then run after those that were connected after it. *)
Theorem disconnect_removes_first_connection (callback : callable) (self : CallbackHook) :
  (callback ∉ callbacks self ->
     disconnect callback (fst (connect callback self)) = (self, Return tt)
     /\ disconnect callback self
        = (self, Throw (Builtin (Exn ValueError "list.remove(x): x not in list" ""))))
  /\ (callback ∈ callbacks self ->
      exists l1 l2 self',
        callbacks self = l1 ++ callback :: l2 /\ (callback ∉ l1)
        /\ disconnect callback (fst (connect callback self)) = (self', Return tt)
        /\ callbacks self' = l1 ++ l2 ++ [callback]
        /\ _log self' = _log self /\ _unhandled self' = _unhandled self).
Proof.
  split.
  - intros Hnot. unfold disconnect, connect. cbn [fst callbacks _log _unhandled]. split.
    + rewrite <- (app_nil_r (callbacks self ++ [callback])), <- app_assoc.
      cbn [app]. rewrite list_remove_first by done. rewrite app_nil_r. by destruct self.
    + by rewrite (proj2 (list_remove_None _ _) Hnot).
  - intros Hin. destruct (elem_of_first _ _ Hin) as (l1 & l2 & Hl & Hx).
    exists l1, l2. eexists. split; [done|]. split; [done|].
    unfold disconnect, connect. cbn [fst callbacks _log _unhandled].
    rewrite Hl, <- app_assoc. cbn [app]. rewrite list_remove_first by done.
    split; [reflexivity|]. done.
Qed.

(** *** [CallbackHook.run] *)

Lemma handle_error_frame (callback : callable) (e : error) (s : state) :
  callbacks (hook (fst (_handle_error callback e s))) = callbacks (hook s)
  /\ _unhandled (hook (fst (_handle_error callback e s))) = _unhandled (hook s)
  /\ world (fst (_handle_error callback e s)) = world s.
Proof. unfold _handle_error. by destruct (isinstance_any _ _). Qed.

Lemma run_one_callbacks (callback : callable) (args : Args) (s : state) :
  keeps_callbacks callback ->
  callbacks (hook (fst (run_one call callback args s))) = callbacks (hook s).
Proof.
  intros Hk. destruct (Hk args s) as [H _]. unfold run_one.
  destruct (call callback args s) as [s1 [r|e]]; cbn [fst] in *; [done|].
  destruct (isinstance_error e (Class Exception)); [|done].
  by rewrite (proj1 (handle_error_frame callback e s1)).
Qed.

(** From an index on, the loop over the live list is the loop over the
    rest of the list as it is now, when the callbacks that are left keep
    the list. *)
Lemma run_from_list (fuel i : nat) (args : Args) (s : state) :
  Forall keeps_callbacks (drop i (callbacks (hook s))) ->
  length (callbacks (hook s)) - i < fuel ->
  run_from call fuel i args s = Some (run_list call (drop i (callbacks (hook s))) args s).
Proof.
  revert i s. induction fuel as [|fuel IH]; intros i s Hall Hfuel; [lia|].
  simpl. destruct (callbacks (hook s) !! i) as [callback|] eqn:Hi.
  - rewrite (drop_S _ _ _ Hi) in Hall |- *. apply Forall_cons in Hall as [Hk Hall].
    simpl. pose proof (run_one_callbacks callback args s Hk) as Hsame.
    apply lookup_lt_Some in Hi.
    destruct (run_one call callback args s) as [s1 [[]|e]]; [|done].
    cbn [fst] in Hsame. rewrite <- Hsame. apply IH; rewrite Hsame; [done | lia].
  - apply lookup_ge_None in Hi. by rewrite drop_ge.
Qed.

(** The loop as far as the callbacks [before], which keep the list and
    after which the loop goes on. *)
Lemma run_from_prefix (fuel : nat) (args : Args) (before : list callable) :
  forall (pre rest : list callable) (s s1 : state),
    callbacks (hook s) = pre ++ before ++ rest ->
    Forall keeps_callbacks before ->
    run_list call before args s = (s1, Return tt) ->
    callbacks (hook s1) = callbacks (hook s)
    /\ run_from call (length before + fuel) (length pre) args s
       = run_from call fuel (length pre + length before) args s1.
Proof.
  induction before as [|callback before IH]; intros pre rest s s1 Hl Hall Hrun.
  - simpl in Hrun. injection Hrun as <-. split; [done|]. simpl. by rewrite Nat.add_0_r.
  - apply Forall_cons in Hall as [Hk Hall]. simpl in Hrun |- *.
    assert (Hi : callbacks (hook s) !! length pre = Some callback).
    { rewrite Hl. by rewrite lookup_app_r, Nat.sub_diag by lia. }
    rewrite Hi. pose proof (run_one_callbacks callback args s Hk) as Hsame.
    destruct (run_one call callback args s) as [s' [[]|e]]; [|done].
    cbn [fst] in Hsame.
    destruct (IH (pre ++ [callback]) rest s' s1) as [Hsame1 Hgo]; [|done|done|].
    { rewrite Hsame, Hl, <- app_assoc. done. }
    split; [congruence|].
    rewrite length_app in Hgo. simpl in Hgo.
    replace (length pre + 1) with (S (length pre)) in Hgo by lia.
    rewrite Hgo. f_equal. lia.
Qed.

Lemma run_list_callbacks (l : list callable) (args : Args) (s : state) :
  Forall keeps_callbacks l ->
  callbacks (hook (fst (run_list call l args s))) = callbacks (hook s).
Proof.
  intros Hall. revert s. induction Hall as [|callback l Hk Hall IH]; intros s; [done|].
  simpl. pose proof (run_one_callbacks callback args s Hk) as Hsame.
  destruct (run_one call callback args s) as [s1 [[]|e]]; cbn [fst] in *; [|done].
  by rewrite IH.
Qed.


(** An exception that is no [Exception], or one of an unhandled class,
    ends [run] where it is raised: [run] raises it, nothing is logged for
    it, and the callbacks connected after the one that raised it are not
    called, whatever they are. *)
Theorem run_stops_at_unhandled_error (fuel : nat) (args : Args) (s s1 s2 : state)
    (before after : list callable) (callback : callable) (e : error) :
  callbacks (hook s) = before ++ callback :: after ->
  Forall keeps_callbacks before ->
  run_list call before args s = (s1, Return tt) ->
  call callback args s1 = (s2, Throw e) ->
  isinstance_error e (Class Exception) = false
    \/ isinstance_any e (_unhandled (hook s2)) = true ->
  length before < fuel ->
  run call fuel args s = Some (s2, Throw e).
Proof.
  intros Hl Hall Hrun Hcall He Hfuel.
  destruct (run_from_prefix (fuel - length before) args before [] (callback :: after) s s1)
    as [Hsame Hgo]; [done..|].
  unfold run. replace fuel with (length before + (fuel - length before)) by lia.
  simpl in Hgo. rewrite Hgo.
  destruct (fuel - length before) as [|fuel'] eqn:Hf; [lia|].
  simpl. rewrite Hsame, Hl.
  rewrite lookup_app_r, Nat.sub_diag by lia. simpl.
  unfold run_one, _handle_error. rewrite Hcall.
  destruct (isinstance_error e (Class Exception)); [|done].
  destruct He as [He|He]; [done|]. by rewrite He.
Qed.

Lemma run_one_default (callback : callable) (args : Args) (s : state) :
  keeps_unhandled callback -> raises_exceptions_only callback ->
  _unhandled (hook s) = [] ->
  exists s1, run_one call callback args s = (s1, Return tt) /\ _unhandled (hook s1) = [].
Proof.
  intros Hu Hr Hs. destruct (Hu args s) as [Hu1 _]. destruct (Hr args s) as [Hr1 _].
  unfold run_one. destruct (call callback args s) as [s1 [r|e]]; cbn [fst] in *.
  - exists s1. split; [done | congruence].
  - rewrite (Hr1 s1 e eq_refl). unfold _handle_error. rewrite Hu1, Hs. simpl.
    eexists. split; [done|]. simpl. congruence.
Qed.

Lemma run_list_default (l : list callable) (args : Args) (s : state) :
  Forall keeps_unhandled l -> Forall raises_exceptions_only l ->
  _unhandled (hook s) = [] ->
  exists s', run_list call l args s = (s', Return tt) /\ _unhandled (hook s') = [].
Proof.
  intros Hu. revert s. induction Hu as [|callback l Hu Hall IH]; intros s Hr Hs.
  - by exists s.
  - apply Forall_cons in Hr as [Hr Hrs].
    destruct (run_one_default callback args s Hu Hr Hs) as (s1 & H1 & Hs1).
    simpl. rewrite H1. by apply IH.
Qed.


(** A callback that disconnects itself while [run] is calling it makes
    [run] pass over the callback connected next: the list is one shorter
    when the loop reads index after index, so the callbacks that follow
    that one are called and it is not. *)
Theorem run_skips_after_self_disconnect (fuel : nat) (args : Args) (s s1 s2 : state)
    (before after : list callable) (callback next : callable) (r : option generator) :
  callbacks (hook s) = before ++ callback :: next :: after ->
  Forall keeps_callbacks before -> Forall keeps_callbacks after ->
  run_list call before args s = (s1, Return tt) ->
  call callback args s1 = (s2, Return r) ->
  callbacks (hook s2) = before ++ next :: after ->
  length (callbacks (hook s)) < fuel ->
  run call fuel args s = Some (run_list call after args s2).
Proof.
  intros Hl Hbefore Hafter Hrun Hcall Hl2 Hfuel.
  rewrite Hl, length_app in Hfuel. simpl in Hfuel.
  destruct (run_from_prefix (fuel - length before) args before []
              (callback :: next :: after) s s1) as [Hsame Hgo]; [done..|].
  unfold run. replace fuel with (length before + (fuel - length before)) by lia.
  simpl in Hgo. rewrite Hgo.
  destruct (fuel - length before) as [|fuel'] eqn:Hf; [lia|].
  simpl. rewrite Hsame, Hl.
  rewrite lookup_app_r, Nat.sub_diag by lia. simpl.
  unfold run_one. rewrite Hcall.
  assert (Hdrop : drop (S (length before)) (callbacks (hook s2)) = after).
  { rewrite Hl2. change (next :: after) with ([next] ++ after).
    rewrite app_assoc. rewrite drop_app_length'; [done|].
    rewrite length_app. simpl. lia. }
  rewrite run_from_list; rewrite ?Hdrop; [done | done |].
  rewrite Hl2, length_app. simpl. lia.
Qed.

(** *** [ContextManagerHook.run] *)

Lemma tear_down_order (teardown : callable -> state -> state) (gen : callable -> generator)
    (l : list callable) (s : state) :
  (forall callback, callback ∈ l ->
     forall s', second_next (gen callback) s' = (teardown callback s', Stopped)) ->
  tear_down (map (fun callback => (callback, gen callback)) l) s
  = (fold_left (fun s callback => teardown callback s) l s, Return tt).
Proof.
  revert s. induction l as [|callback l IH]; intros s Hall; [done|].
  simpl. rewrite (Hall callback) by apply list_elem_of_here.
  apply IH. intros c Hc. apply Hall. by apply list_elem_of_further.
Qed.

Lemma set_up_from_order (args : Args) (setup : callable -> state -> state)
    (gen : callable -> generator) (l : list callable) (fuel : nat) :
  (forall callback, callback ∈ l ->
     (forall s, call callback args s = (s, Return (Some (gen callback))))
     /\ (forall s, first_next (gen callback) s = (setup callback s, Yielded))
     /\ (forall s, callbacks (hook (setup callback s)) = callbacks (hook s))) ->
  forall (i : nat) (generators : list (callable * generator)) (s : state),
    callbacks (hook s) = l ->
    length l - i < fuel ->
    set_up_from call fuel i args generators s
    = Some (fold_left (fun s callback => setup callback s) (drop i l) s,
            Return (generators ++ map (fun callback => (callback, gen callback)) (drop i l))).
Proof.
  intros Hall. induction fuel as [|fuel IH]; intros i generators s Hl Hfuel; [lia|].
  simpl. rewrite Hl. destruct (l !! i) as [callback|] eqn:Hi.
  - rewrite (drop_S _ _ _ Hi). simpl.
    destruct (Hall callback) as (Hcall & Hfirst & Hkeep); [by eapply list_elem_of_lookup_2|].
    unfold set_up. rewrite Hcall, Hfirst.
    apply lookup_lt_Some in Hi.
    rewrite IH; [|by rewrite Hkeep | lia].
    by rewrite <- app_assoc.
  - apply lookup_ge_None in Hi. rewrite drop_ge by done. simpl. by rewrite app_nil_r.
Qed.

(** Callbacks that are generator functions which set up, yield once and
    tear down, and whose set-up code keeps the list of callbacks: the
    [with] statement runs the set-up code of each in the order of their
    connection, then its body, and, when the body returns, the tear-down
    code of each in that same order, not in the opposite one. *)
Theorem with_run_tears_down_in_connection_order (fuel : nat) (args : Args)
    (body : state -> state * outcome unit) (s s2 : state)
    (setup teardown : callable -> state -> state) (gen : callable -> generator) :
  (forall callback, callback ∈ callbacks (hook s) ->
     yields_once call args callback (gen callback) (setup callback) (teardown callback)
     /\ forall s', callbacks (hook (setup callback s')) = callbacks (hook s')) ->
  body (fold_left (fun s callback => setup callback s) (callbacks (hook s)) s)
  = (s2, Return tt) ->
  length (callbacks (hook s)) < fuel ->
  with_run call fuel args body s
  = Some (fold_left (fun s callback => teardown callback s) (callbacks (hook s)) s2,
          Return tt).
Proof.
  intros Hall Hbody Hfuel. unfold with_run.
  rewrite (set_up_from_order args setup gen (callbacks (hook s))); [|..|done|lia].
  2: { intros callback Hin. destruct (Hall callback Hin) as [(H1 & H2 & _) H3]. done. }
  rewrite drop_0, Hbody. simpl. f_equal. apply tear_down_order.
  intros callback Hin. by destruct (Hall callback Hin) as [(_ & _ & H3) _].
Qed.

Lemma handle_raised_default {A : Type} (callback : callable) (e : error) (s : state) :
  _unhandled (hook s) = [] -> isinstance_error e (Class Exception) = true ->
  handle_raised (A := A) callback e s = (log_exception callback e s, Return None).
Proof. intros Hs He. unfold handle_raised, _handle_error. by rewrite He, Hs. Qed.

(** One iteration of the first loop, for a callback of the kind the
    property is about: it is the logging iteration. *)
Lemma set_up_default (callback : callable) (args : Args) (s : state) :
  keeps_callbacks callback -> keeps_unhandled callback -> raises_exceptions_only callback ->
  _unhandled (hook s) = [] ->
  set_up call callback args s
  = ((set_up_logging call callback args s).1, Return (set_up_logging call callback args s).2)
  /\ _unhandled (hook (set_up_logging call callback args s).1) = []
  /\ callbacks (hook (set_up_logging call callback args s).1) = callbacks (hook s)
  /\ forall g, (set_up_logging call callback args s).2 = Some g ->
       exists s0 s0', call callback args s0 = (s0', Return (Some g)).
Proof.
  intros Hk Hu Hr Hs.
  destruct (Hk args s) as [Hk1 Hk2], (Hu args s) as [Hu1 Hu2], (Hr args s) as [Hr1 Hr2].
  unfold set_up, set_up_logging.
  destruct (call callback args s) as [s1 [[g|]|e]] eqn:Hcall; cbn [fst] in *.
  - destruct (Hu2 g s1 eq_refl) as [Hu3 _]. specialize (Hk2 g s1 eq_refl).
    specialize (Hr2 g s1 eq_refl).
    destruct (first_next g s1) as [s2 [| |e]] eqn:Hnext; cbn [fst snd] in *.
    + split; [done|]. split; [congruence|]. split; [congruence|].
      intros g' [= <-]. eauto.
    + rewrite handle_raised_default by (done || congruence).
      simpl. split; [done|]. split; [congruence|]. split; [congruence|done].
    + rewrite handle_raised_default; [|congruence|by eapply Hr2; left].
      simpl. split; [done|]. split; [congruence|]. split; [congruence|done].
  - rewrite handle_raised_default by (done || congruence).
    simpl. split; [done|]. split; [congruence|]. split; [congruence|done].
  - rewrite handle_raised_default; [|congruence|by eapply Hr1].
    simpl. split; [done|]. split; [congruence|]. split; [congruence|done].
Qed.

Lemma set_up_from_default (args : Args) (fuel : nat) :
  forall (i : nat) (generators : list (callable * generator)) (s : state),
    Forall keeps_callbacks (callbacks (hook s)) ->
    Forall keeps_unhandled (callbacks (hook s)) ->
    Forall raises_exceptions_only (callbacks (hook s)) ->
    _unhandled (hook s) = [] ->
    Forall (fun cg => keeps_unhandled cg.1 /\ raises_exceptions_only cg.1
                      /\ exists s0 s0', call cg.1 args s0 = (s0', Return (Some cg.2)))
           generators ->
    length (callbacks (hook s)) - i < fuel ->
    set_up_from call fuel i args generators s
    = Some ((set_up_all_logging call (drop i (callbacks (hook s))) args generators s).1,
            Return (set_up_all_logging call (drop i (callbacks (hook s))) args generators s).2)
    /\ _unhandled
         (hook (set_up_all_logging call (drop i (callbacks (hook s))) args generators s).1)
       = []
    /\ Forall (fun cg => keeps_unhandled cg.1 /\ raises_exceptions_only cg.1
                         /\ exists s0 s0', call cg.1 args s0 = (s0', Return (Some cg.2)))
              (set_up_all_logging call (drop i (callbacks (hook s))) args generators s).2.
Proof.
  induction fuel as [|fuel IH]; intros i generators s Hk Hu Hr Hs Hg Hfuel; [lia|].
  simpl. destruct (callbacks (hook s) !! i) as [callback|] eqn:Hi.
  - rewrite (drop_S _ _ _ Hi). simpl.
    pose proof (proj1 (Forall_lookup _ _) Hk i callback Hi) as Hk1.
    pose proof (proj1 (Forall_lookup _ _) Hu i callback Hi) as Hu1.
    pose proof (proj1 (Forall_lookup _ _) Hr i callback Hi) as Hr1.
    destruct (set_up_default callback args s Hk1 Hu1 Hr1 Hs) as (Hset & Hs1 & Hl1 & Hg1).
    rewrite Hset. apply lookup_lt_Some in Hi.
    destruct (set_up_logging call callback args s) as [s1 [g|]]; cbn [fst snd] in *;
      rewrite <- Hl1; apply IH; rewrite ?Hl1; try done; try lia.
    apply Forall_app. split; [done|]. apply Forall_singleton. simpl.
    split; [done|]. split; [done|]. by apply Hg1.
  - apply lookup_ge_None in Hi. rewrite drop_ge by done. simpl. done.
Qed.

Lemma tear_down_default (args : Args) (generators : list (callable * generator)) (s : state) :
  Forall (fun cg => keeps_unhandled cg.1 /\ raises_exceptions_only cg.1
                    /\ exists s0 s0', call cg.1 args s0 = (s0', Return (Some cg.2)))
         generators ->
  _unhandled (hook s) = [] ->
  tear_down generators s = (tear_down_logging generators s, Return tt).
Proof.
  intros Hall. revert s.
  induction Hall as [|[callback g] generators (Hu & Hr & s0 & s0' & Hcall) Hall IH];
    intros s Hs; [done|].
  simpl in *.
  destruct (Hu args s0) as [_ Hu2]. destruct (Hu2 g s0' Hcall) as [_ Hu3].
  destruct (Hr args s0) as [_ Hr2]. specialize (Hr2 g s0' Hcall).
  specialize (Hu3 s).
  destruct (second_next g s) as [s1 [| |e]] eqn:Hnext; cbn [fst] in *.
  - rewrite handle_raised_default by (done || congruence).
    apply IH. simpl. congruence.
  - apply IH. congruence.
  - rewrite handle_raised_default; [|congruence|by eapply Hr2; right].
    apply IH. simpl. congruence.
Qed.


End WithCallbacks.

(** *** The properties on callbacks that write lines *)

Import MoreExamples.

Lemma example_call_keeps_callbacks (callback : callable) :
  callback <> 2 -> keeps_callbacks example_call callback.
Proof.
  intros Hne args s.
  destruct callback as [|[|[|[|[|[|[|[|callback]]]]]]]]; try done;
    (split; [reflexivity|]); intros g s1 H; simpl in H; try discriminate H;
    injection H as <- <-; reflexivity.
Qed.

Lemma example_call_keeps_unhandled (callback : callable) :
  keeps_unhandled example_call callback.
Proof.
  intros args s. split.
  - destruct callback as [|[|[|[|[|[|[|[|callback]]]]]]]]; try reflexivity.
    unfold example_call, disconnect. cbn [fst hook].
    by destruct (list_remove 2 (callbacks (hook s))).
  - intros g s1 H.
    destruct callback as [|[|[|[|[|[|[|[|callback]]]]]]]]; simpl in H; try discriminate H;
      injection H as <- <-; (split; [reflexivity | intros s2; reflexivity]).
Qed.

Lemma example_call_raises_exceptions_only (callback : callable) :
  callback <> 3 -> raises_exceptions_only example_call callback.
Proof.
  intros Hne args s.
  destruct callback as [|[|[|[|[|[|[|[|callback]]]]]]]]; try done;
    (split; [intros s1 e H; simpl in H; try discriminate H; by injection H as <- <-|]);
    intros g s1 H; simpl in H; try discriminate H;
    injection H as <- <-; intros s2 s3 e [H|H]; discriminate H.
Qed.

Ltac forall_callbacks lem :=
  let c := fresh "c" in
  let Hc := fresh "Hc" in
  apply Forall_forall; intros c Hc; apply lem; intros ->;
  repeat (apply elem_of_cons in Hc as [Hc|Hc]; [discriminate Hc|]);
  by apply elem_of_nil in Hc.

Lemma disconnect_removes_first_connection_witness :
  exists l1 l2 self',
    callbacks (MkCallbackHook [] [] [7; 8]) = l1 ++ 7 :: l2 /\ (7 ∉ l1)
    /\ disconnect 7 (fst (connect 7 (MkCallbackHook [] [] [7; 8]))) = (self', Return tt)
    /\ callbacks self' = l1 ++ l2 ++ [7]
    /\ _log self' = [] /\ _unhandled self' = [].
Proof.
  apply (disconnect_removes_first_connection 7 (MkCallbackHook [] [] [7; 8])).
  apply list_elem_of_here.
Defined.


Lemma run_stops_at_unhandled_error_witness :
  run example_call 2 "x" (example_hook [0; 3; 0])
  = Some (MkState (MkCallbackHook [] [] [0; 3; 0]) ["zero x"],
          Throw (Builtin (Exn KeyboardInterrupt "" ""))).
Proof.
  apply (run_stops_at_unhandled_error example_call 2 "x" (example_hook [0; 3; 0])
           (MkState (MkCallbackHook [] [] [0; 3; 0]) ["zero x"])
           (MkState (MkCallbackHook [] [] [0; 3; 0]) ["zero x"])
           [0] [0] 3 (Builtin (Exn KeyboardInterrupt "" ""))).
  - reflexivity.
  - forall_callbacks example_call_keeps_callbacks.
  - reflexivity.
  - reflexivity.
  - left. reflexivity.
  - simpl. lia.
Defined.


Lemma run_skips_after_self_disconnect_witness :
  run example_call 5 "x" (example_hook [0; 2; 6; 0])
  = Some (MkState (MkCallbackHook [] [] [0; 6; 0]) ["zero x"; "two"; "zero x"], Return tt).
Proof.
  apply (run_skips_after_self_disconnect example_call 5 "x" (example_hook [0; 2; 6; 0])
           (MkState (MkCallbackHook [] [] [0; 2; 6; 0]) ["zero x"])
           (MkState (MkCallbackHook [] [] [0; 6; 0]) ["zero x"; "two"])
           [0] [0] 2 6 None).
  - reflexivity.
  - forall_callbacks example_call_keeps_callbacks.
  - forall_callbacks example_call_keeps_callbacks.
  - reflexivity.
  - reflexivity.
  - reflexivity.
  - simpl. lia.
Defined.

Lemma with_run_tears_down_in_connection_order_witness :
  with_run example_call 3 "x" example_body (example_hook [4; 5])
  = Some (MkState (MkCallbackHook [] [] [4; 5])
            ["set up four"; "set up five"; "body"; "tear down four"; "tear down five"],
          Return tt).
Proof.
  apply (with_run_tears_down_in_connection_order example_call 3 "x" example_body
           (example_hook [4; 5])
           (MkState (MkCallbackHook [] [] [4; 5]) ["set up four"; "set up five"; "body"])
           (fun callback s =>
              MkState (hook s)
                (world s ++ ["set up " +:+ (if (callback =? 4)%nat then "four" else "five")]))
           (fun callback s =>
              MkState (hook s)
                (world s ++ ["tear down " +:+ (if (callback =? 4)%nat then "four" else "five")]))
           (fun callback => example_generator (if (callback =? 4)%nat then "four" else "five"))).
  - intros callback Hin. simpl in Hin.
    apply elem_of_cons in Hin as [->|Hin];
      [|apply list_elem_of_singleton in Hin as ->]; by repeat split.
  - reflexivity.
  - simpl. lia.
Defined.


End HookFacts.

(** * Properties of the widget helpers of [utils.py] *)

Module WidgetFacts.
Import Widgets MoreExamples.

(** [get_window] returns a [tk.Tk] or [tk.Toplevel], the first there is
    along the chain of masters that starts at the widget itself: no widget
    before it on the chain is one.  A window is its own window. *)
Theorem get_window_nearest_window (w : widget) :
  is_window (get_window w) = true
  /\ get_window (get_window w) = get_window w
  /\ exists k,
       nth_master k w = Some (get_window w)
       /\ forall j w', j < k -> nth_master j w = Some w' -> is_window w' = false.
Proof.
  induction w as [|toplevel name master (Hwin & Hidem & k & Hk & Hmin)].
  - split; [done|]. split; [done|]. exists 0. split; [done|]. intros; lia.
  - destruct toplevel; simpl.
    + split; [done|]. split; [done|]. exists 0. split; [done|]. intros; lia.
    + split; [done|]. split; [done|]. exists (S k). split; [done|].
      intros [|j] w' Hj; simpl.
      * by intros [= <-].
      * apply Hmin. lia.
Qed.

(** When no script of [widget1] starts with [+] (and none is empty, as Tk
    has it): after [copy_bindings] every sequence bound on [widget1] is
    bound on [widget2] to the script [widget1] has for it, which replaces
    the script [widget2] had for that sequence, and [widget2] keeps its
    bindings for the other sequences. *)
Theorem copy_bindings_replaces (widget1 widget2 : bindings) :
  (forall sequence script, widget1 !! sequence = Some script ->
     script <> "" /\ forall rest, script <> String "+" rest) ->
  copy_bindings widget1 widget2 = widget1 ∪ widget2
  /\ (forall sequence script, widget1 !! sequence = Some script ->
        copy_bindings widget1 widget2 !! sequence = Some script)
  /\ (forall sequence, widget1 !! sequence = None ->
        copy_bindings widget1 widget2 !! sequence = widget2 !! sequence).
Proof.
  intros Hscripts.
  assert (Heq : copy_bindings widget1 widget2 = widget1 ∪ widget2).
  { revert Hscripts. unfold copy_bindings.
    apply (map_fold_weak_ind
             (fun r m => (forall sequence script, m !! sequence = Some script ->
                            script <> "" /\ forall rest, script <> String "+" rest) ->
                         r = m ∪ widget2)).
    - intros _. symmetry. apply (left_id_L ∅ (∪)).
    - intros i x m r Hi IH Hall.
      destruct (Hall i x) as [Hne Hplus]; [by rewrite lookup_insert_eq|].
      rewrite IH.
      + unfold bind. destruct x as [|c rest]; [done|].
        destruct (Ascii.eqb_spec c "+") as [->|_]; [by destruct (Hplus rest)|].
        apply (insert_union_l (M := gmap string) m widget2).
      + intros sequence script Hs. apply (Hall sequence).
        rewrite lookup_insert_ne; [done|]. intros ->. congruence. }
  split; [done|]. rewrite Heq. split.
  - intros sequence script Hs. by apply lookup_union_Some_l.
  - intros sequence Hs. by apply lookup_union_r.
Qed.

Lemma get_window_nearest_window_witness :
  is_window (get_window example_button) = true
  /\ get_window (get_window example_button) = get_window example_button
  /\ exists k,
       nth_master k example_button = Some (get_window example_button)
       /\ forall j w', j < k -> nth_master j example_button = Some w' -> is_window w' = false.
Proof. apply (get_window_nearest_window example_button). Defined.

Lemma copy_bindings_replaces_witness :
  copy_bindings {["<Key-a>" := "new"]}
    (<["<Key-a>" := "old"]> {["<Key-b>" := "other"]}) !! "<Key-a>"
  = Some "new".
Proof.
  apply (copy_bindings_replaces {["<Key-a>" := "new"]}
           (<["<Key-a>" := "old"]> {["<Key-b>" := "other"]})).
  - intros sequence script H. apply lookup_singleton_Some in H as [<- <-].
    split; [discriminate | intros rest; discriminate].
  - reflexivity.
Defined.

End WidgetFacts.
